(** * Gemini-Voice-AI: the PCM codec, the WAV container, the Live playback
      scheduler and the session teardown, embedded from
      [services/audioUtils.ts] and [components/LiveSession.tsx].

    Conventions of the embedding.
    - A [Uint8Array] is a [list byte]; an [Int16Array] is a list of [Z] in
      the signed 16-bit range, with the wrap-around of a typed-array store
      written out ([toInt16]).
    - A JavaScript string is a [string]: the strings handled here are
      "binary strings" (code units below 256), base64 text and error texts.
    - Audio samples are 32-bit floats.  Every finite one is a rational, and
      on a sample clamped to [-1,1] each arithmetic step of the codec
      (a 24-bit significand times a 15/16-bit constant in binary64, a 16-bit
      integer divided by 2^15) is exact, so finite samples are modelled by
      [Q] and the non-finite ones by constructors of their own.
    - Numbers that are integers are [Z].  Where the code multiplies or adds
      numbers that are not bounded, the result is rounded as binary64
      rounds it ([binary64_round]).
    - Times of the audio clock are [Q] (seconds).
    - Calls into the audio engine and the devices are recorded in a log
      kept in the session state. *)

From Stdlib Require Import ZArith QArith Qround Qabs Qminmax.
From Stdlib.Strings Require Import String Ascii Byte.
From Stdlib Require Import List Bool Lia Sorted.
Import ListNotations.

Open Scope Z_scope.

(** [lia] is to see through division and remainder by constants. *)
Ltac Zify.zify_post_hook ::= Z.to_euclidean_division_equations.

(* ------------------------------------------------------------------ *)
(** ** Bytes and typed-array conversions *)

Definition Uint8Array := list byte.

Definition byte_to_Z (b : byte) : Z := Z.of_N (Byte.to_N b).

(** Storing a number into a [Uint8Array] keeps it modulo 256. *)
Definition byte_of_Z (z : Z) : byte :=
  match Byte.of_N (Z.to_N (z mod 256)) with
  | Some b => b
  | None => x00
  end.

(** Storing an integer into an [Int16Array] (ToInt16). *)
Definition toInt16 (z : Z) : Z := (z + 32768) mod 65536 - 32768.

(** [String.fromCharCode(b)] for a byte, and [s.charCodeAt(i)] on a
    binary string. *)
Definition fromCharCode (b : byte) : ascii := ascii_of_byte b.
Definition charCodeAt (c : ascii) : byte := byte_of_ascii c.

Definition code_point (c : ascii) : Z := Z.of_N (N_of_ascii c).
Definition char_of_code (z : Z) : ascii := ascii_of_N (Z.to_N z).

(* ------------------------------------------------------------------ *)
(** ** The platform's [btoa] and [atob]

    Both are browser built-ins.  [btoa] is the base64 encoding of RFC 4648
    with padding; [atob] is the "forgiving-base64 decode" of the WHATWG
    Infra standard: strip ASCII whitespace, drop one or two trailing [=]
    when the length is a multiple of four, fail on length 1 mod 4 or on a
    character outside the alphabet, then regroup the sextets. *)

Module Base64.

Definition alphabet : list ascii :=
  list_ascii_of_string
    "ABCDEFGHIJKLMNOPQRSTUVWXYZabcdefghijklmnopqrstuvwxyz0123456789+/".

Definition pad_char : ascii := "="%char.

Definition char_of_sextet (n : Z) : ascii :=
  nth (Z.to_nat n) alphabet pad_char.

Fixpoint index_of (c : ascii) (tbl : list ascii) (i : Z) : option Z :=
  match tbl with
  | [] => None
  | x :: tbl' => if Ascii.eqb c x then Some i else index_of c tbl' (i + 1)
  end.

Definition sextet_of_char (c : ascii) : option Z := index_of c alphabet 0.

(** Three bytes give four sextets; a last group of one or two bytes gives
    two or three. *)
Fixpoint sextets_of_bytes (bs : list Z) : list Z :=
  match bs with
  | b0 :: b1 :: b2 :: rest =>
      let n := b0 * 65536 + b1 * 256 + b2 in
      n / 262144 :: (n / 4096) mod 64 :: (n / 64) mod 64 :: n mod 64
        :: sextets_of_bytes rest
  | [b0; b1] =>
      let n := b0 * 65536 + b1 * 256 in
      [n / 262144; (n / 4096) mod 64; (n / 64) mod 64]
  | [b0] =>
      let n := b0 * 65536 in
      [n / 262144; (n / 4096) mod 64]
  | [] => []
  end.

Definition padding (len : nat) : list ascii :=
  match (len mod 3)%nat with
  | 1%nat => [pad_char; pad_char]
  | 2%nat => [pad_char]
  | _ => []
  end.

Definition encode (bs : list Z) : list ascii :=
  map char_of_sextet (sextets_of_bytes bs) ++ padding (length bs).

Definition is_ascii_whitespace (c : ascii) : bool :=
  match N_of_ascii c with
  | 9%N | 10%N | 12%N | 13%N | 32%N => true
  | _ => false
  end.

Definition is_pad (c : ascii) : bool := Ascii.eqb c pad_char.

Definition strip_padding (data : list ascii) : list ascii :=
  if Z.of_nat (length data) mod 4 =? 0 then
    match rev data with
    | c1 :: r1 =>
        if is_pad c1 then
          match r1 with
          | c2 :: r2 => if is_pad c2 then rev r2 else rev r1
          | [] => rev r1
          end
        else data
    | [] => data
    end
  else data.

Fixpoint sextets_of_chars (data : list ascii) : option (list Z) :=
  match data with
  | [] => Some []
  | c :: data' =>
      match sextet_of_char c, sextets_of_chars data' with
      | Some n, Some ns => Some (n :: ns)
      | _, _ => None
      end
  end.

(** Twenty-four accumulated bits are three bytes; twelve left-over bits
    give one byte (last four discarded), eighteen give two (last two
    discarded). *)
Fixpoint bytes_of_sextets (ss : list Z) : list Z :=
  match ss with
  | s0 :: s1 :: s2 :: s3 :: rest =>
      let n := ((s0 * 64 + s1) * 64 + s2) * 64 + s3 in
      n / 65536 :: (n / 256) mod 256 :: n mod 256 :: bytes_of_sextets rest
  | [s0; s1; s2] =>
      let n := ((s0 * 64 + s1) * 64 + s2) / 4 in
      [n / 256; n mod 256]
  | [s0; s1] => [(s0 * 64 + s1) / 16]
  | _ => []
  end.

Definition decode (data : list ascii) : option (list Z) :=
  let data := filter (fun c => negb (is_ascii_whitespace c)) data in
  let data := strip_padding data in
  if Z.of_nat (length data) mod 4 =? 1 then None
  else option_map bytes_of_sextets (sextets_of_chars data).

(** Ranges of the numbers handled, and the characters that are not the
    padding character. *)
Definition is_sextet (n : Z) : Prop := 0 <= n < 64.
Definition is_octet (n : Z) : Prop := 0 <= n < 256.
Definition plain (c : ascii) : Prop := is_pad c = false.

End Base64.

(** [btoa] is applied to binary strings only (every code unit below 256,
    which the type [ascii] guarantees), where it cannot throw. *)
Definition btoa (s : string) : string :=
  string_of_list_ascii
    (Base64.encode (map code_point (list_ascii_of_string s))).

(** [None] stands for the [InvalidCharacterError] thrown by [atob]. *)
Definition atob (s : string) : option string :=
  option_map (fun bs => string_of_list_ascii (map char_of_code bs))
             (Base64.decode (list_ascii_of_string s)).

(* ------------------------------------------------------------------ *)
(** ** audioUtils: base64 framing *)

Definition base64ToUint8Array (base64 : string) : option Uint8Array :=
  match atob base64 with
  | None => None
  | Some binaryString => Some (map charCodeAt (list_ascii_of_string binaryString))
  end.

Definition uint8ArrayToBase64 (bytes : Uint8Array) : string :=
  let binary := string_of_list_ascii (map fromCharCode bytes) in
  btoa binary.

(* ------------------------------------------------------------------ *)
(** ** JavaScript numbers read from a [Float32Array] *)

Inductive float : Type :=
| Fin (q : Q)
| PInf
| NInf
| NaN.

Definition Math_min (a b : float) : float :=
  match a, b with
  | NaN, _ | _, NaN => NaN
  | NInf, _ | _, NInf => NInf
  | PInf, x | x, PInf => x
  | Fin p, Fin q => Fin (Qmin p q)
  end.

Definition Math_max (a b : float) : float :=
  match a, b with
  | NaN, _ | _, NaN => NaN
  | PInf, _ | _, PInf => PInf
  | NInf, x | x, NInf => x
  | Fin p, Fin q => Fin (Qmax p q)
  end.

(** [s < 0] *)
Definition lt_zero (s : float) : bool :=
  match s with
  | Fin q => negb (Qle_bool 0 q)
  | NInf => true
  | PInf | NaN => false
  end.

(** [s * k] for a positive integer constant [k]. *)
Definition mul_const (s : float) (k : Z) : float :=
  match s with
  | Fin q => Fin (q * inject_Z k)
  | other => other
  end.

(** Truncation toward zero (the integer part). *)
Definition Qtrunc (q : Q) : Z := Z.quot (Qnum q) (Z.pos (Qden q)).

(** [int16Array[i] = x]: NaN and the infinities become 0, a finite
    number is truncated toward zero and wrapped to 16 bits. *)
Definition store_int16 (x : float) : Z :=
  match x with
  | Fin q => toInt16 (Qtrunc q)
  | PInf | NInf | NaN => 0
  end.

(* ------------------------------------------------------------------ *)
(** ** audioUtils: the PCM codec *)

(** One iteration of the loop of [float32ToB64PCM]. *)
Definition float32ToInt16 (x : float) : Z :=
  let s := Math_max (Fin (-1)) (Math_min (Fin 1) x) in
  store_int16 (if lt_zero s then mul_const s 32768 (* 0x8000 *)
               else mul_const s 32767 (* 0x7FFF *)).

(** The two bytes of a 16-bit element, in the little-endian layout of
    the platforms the application runs on. *)
Definition int16_bytes (v : Z) : list byte :=
  let u := v mod 65536 in
  [byte_of_Z u; byte_of_Z (u / 256)].

(** [new Uint8Array(int16Array.buffer)] *)
Definition int16_buffer (a : list Z) : Uint8Array := flat_map int16_bytes a.

(** The PCM chunk of [float32ToB64PCM], before its base64 framing. *)
Definition float32ToPCM (float32Array : list float) : Uint8Array :=
  int16_buffer (map float32ToInt16 float32Array).

Definition float32ToB64PCM (float32Array : list float) : string :=
  uint8ArrayToBase64 (float32ToPCM float32Array).

Definition signed16 (u : Z) : Z := if u <? 32768 then u else u - 65536.

(** [new Int16Array(data.buffer, data.byteOffset, data.byteLength / 2)]
    on an array that starts its buffer: the length argument is truncated
    to an integer, so a trailing odd byte is not part of the view. *)
Fixpoint int16_view (data : Uint8Array) : list Z :=
  match data with
  | lo :: hi :: rest =>
      signed16 (byte_to_Z lo + 256 * byte_to_Z hi) :: int16_view rest
  | _ => []
  end.

Record AudioBuffer : Type := mkAudioBuffer {
  numberOfChannels : Z;
  buf_length : Z;          (* sample frames *)
  buf_sampleRate : Z;
  channelData : list (list Q)
}.

Definition duration (b : AudioBuffer) : Q :=
  buf_length b # Z.to_pos (buf_sampleRate b).

(** [ctx.createBuffer(numberOfChannels, length, sampleRate)] of the Web
    Audio API throws [NotSupportedError] (here [None]) when an argument is
    zero, negative or outside its nominal range; the ranges taken here are
    the ones every implementation has to support (1 to 32 channels,
    8000 to 96000 Hz); an engine may accept more rates, and the program
    asks for 24000 Hz only.  The new buffer is silent. *)
Definition createBuffer (channels frames rate : Z) : option AudioBuffer :=
  if (1 <=? channels) && (channels <=? 32) && (1 <=? frames)
     && (8000 <=? rate) && (rate <=? 96000)
  then Some (mkAudioBuffer channels frames rate
               (repeat (repeat 0%Q (Z.to_nat frames)) (Z.to_nat channels)))
  else None.

Definition range (n : Z) : list Z := map Z.of_nat (seq 0 (Z.to_nat n)).

Definition pcmToAudioBuffer (data : Uint8Array) (sampleRate numChannels : Z)
  : option AudioBuffer :=
  let dataInt16 := int16_view data in
  let frameCount := Z.of_nat (length dataInt16) / numChannels in
  match createBuffer numChannels frameCount sampleRate with
  | None => None
  | Some buffer =>
      Some (mkAudioBuffer (numberOfChannels buffer) (buf_length buffer)
              (buf_sampleRate buffer)
              (map (fun channel =>
                      map (fun i =>
                             nth (Z.to_nat (i * numChannels + channel))
                                 dataInt16 0 # 32768)
                          (range frameCount))
                   (range numChannels)))
  end.

(* ------------------------------------------------------------------ *)
(** ** audioUtils: the WAV container *)

(** A [DataView] over an [ArrayBuffer]: writes overwrite bytes in place.
    Every write of [pcmToWav] lies inside the 44 header bytes, so the
    [RangeError] of an out-of-bounds write cannot arise there. *)
Fixpoint write_at (offset : nat) (bs buffer : list byte) : list byte :=
  match offset, buffer with
  | _, [] => []
  | O, x :: buffer' =>
      match bs with
      | [] => buffer
      | b :: bs' => b :: write_at O bs' buffer'
      end
  | S offset', x :: buffer' => x :: write_at offset' bs buffer'
  end.

Definition setUint8 (offset : nat) (v : Z) (buffer : list byte) : list byte :=
  write_at offset [byte_of_Z v] buffer.

(** [view.setUint16(offset, v, true)] *)
Definition setUint16 (offset : nat) (v : Z) (buffer : list byte) : list byte :=
  let u := v mod 65536 in
  write_at offset [byte_of_Z u; byte_of_Z (u / 256)] buffer.

(** [view.setUint32(offset, v, true)] *)
Definition setUint32 (offset : nat) (v : Z) (buffer : list byte) : list byte :=
  let u := v mod 4294967296 in
  write_at offset
    [byte_of_Z u; byte_of_Z (u / 256); byte_of_Z (u / 65536);
     byte_of_Z (u / 16777216)] buffer.

Definition writeString (offset : nat) (s : string) (buffer : list byte)
  : list byte :=
  write_at offset (map charCodeAt (list_ascii_of_string s)) buffer.

Definition headerLength : nat := 44.

(** Arithmetic of JavaScript numbers on integers.  A product or a sum
    of two numbers is the exact result rounded to binary64, to the nearest
    value and to the even significand on a tie; [None] stands for a result
    that is not finite.  Integers below 2^53 in magnitude are kept as they
    are. *)
Definition binary64_round (z : Z) : option Z :=
  let m := Z.abs z in
  if m <? 2 ^ 53 then Some z
  else
    let e := Z.log2 m - 52 in
    let q := m / 2 ^ e in
    let r := m mod 2 ^ e in
    let half := 2 ^ (e - 1) in
    let q' := if r <? half then q
              else if half <? r then q + 1
              else if Z.even q then q else q + 1 in
    let v := q' * 2 ^ e in
    if v <? 2 ^ 1024 then Some (Z.sgn z * v) else None.

Definition js_mul (a b : option Z) : option Z :=
  match a, b with
  | Some x, Some y => binary64_round (x * y)
  | _, _ => None
  end.

Definition js_add (a b : option Z) : option Z :=
  match a, b with
  | Some x, Some y => binary64_round (x + y)
  | _, _ => None
  end.

(** An integer that is a JavaScript number. *)
Definition is_number (z : Z) : Prop := binary64_round z = Some z.

(** The integer a [DataView] setter takes from a number: a number that
    is not finite counts as 0. *)
Definition to_integer (v : option Z) : Z :=
  match v with
  | Some z => z
  | None => 0
  end.

(** The bytes of the [Blob] returned by [pcmToWav], for a sample rate and
    a channel count that are integers ([is_number]). *)
Definition pcmToWav (pcmData : Uint8Array) (sampleRate numChannels : Z)
  : list byte :=
  let dataLength := Z.of_nat (length pcmData) in
  let buffer := repeat x00 (headerLength + length pcmData) in
  let buffer := writeString 0 "RIFF" buffer in
  let buffer :=
    setUint32 4 (to_integer (js_add (Some 36) (Some dataLength))) buffer in
  let buffer := writeString 8 "WAVE" buffer in
  let buffer := writeString 12 "fmt " buffer in
  let buffer := setUint32 16 16 buffer in
  let buffer := setUint16 20 1 buffer in
  let buffer := setUint16 22 numChannels buffer in
  let buffer := setUint32 24 sampleRate buffer in
  let buffer :=
    setUint32 28
      (to_integer (js_mul (js_mul (Some sampleRate) (Some numChannels)) (Some 2)))
      buffer in
  let buffer :=
    setUint16 32 (to_integer (js_mul (Some numChannels) (Some 2))) buffer in
  let buffer := setUint16 34 16 buffer in
  let buffer := writeString 36 "data" buffer in
  let buffer := setUint32 40 dataLength buffer in
  write_at headerLength pcmData buffer.

(** Readers of a little-endian container, to say what a header declares. *)
Definition getUint16 (offset : nat) (buffer : list byte) : Z :=
  match skipn offset buffer with
  | b0 :: b1 :: _ => byte_to_Z b0 + 256 * byte_to_Z b1
  | _ => 0
  end.

Definition getUint32 (offset : nat) (buffer : list byte) : Z :=
  match skipn offset buffer with
  | b0 :: b1 :: b2 :: b3 :: _ =>
      byte_to_Z b0 + 256 * byte_to_Z b1 + 65536 * byte_to_Z b2
      + 16777216 * byte_to_Z b3
  | _ => 0
  end.

Definition getString (offset len : nat) (buffer : list byte) : string :=
  string_of_list_ascii (map fromCharCode (firstn len (skipn offset buffer))).

(* ------------------------------------------------------------------ *)
(** ** Error texts *)

(** [haystack.includes(needle)] *)
Fixpoint includes (haystack needle : string) : bool :=
  prefix needle haystack
  || match haystack with
     | EmptyString => false
     | String _ rest => includes rest needle
     end.

Record JsError : Type := mkJsError {
  err_message : string;     (* [e.message], empty when absent *)
  err_toString : string     (* [e.toString()] *)
}.

(** [e.message || e.toString()] *)
Definition errorMessage (e : JsError) : string :=
  match err_message e with
  | EmptyString => err_toString e
  | m => m
  end.

Inductive ErrorKind : Type :=
| TransportRateLimited
| TransportError.

(** The test of [onerror] in LiveSession and of the [catch] of
    [handleGenerateAndPlay] in TextToSpeech. *)
Definition classify (errorMessage : string) : ErrorKind :=
  if includes errorMessage "429" || includes errorMessage "quota"
     || includes errorMessage "Resource has been exhausted"
  then TransportRateLimited
  else TransportError.

(** The test of the [catch] of [startSession], which has two alternatives. *)
Definition classify_start (errorMessage : string) : ErrorKind :=
  if includes errorMessage "429" || includes errorMessage "quota"
  then TransportRateLimited
  else TransportError.

(* ------------------------------------------------------------------ *)
(** ** LiveSession: state *)

Module Live.

(** The status texts of the component. *)
Inductive Status : Type :=
| StatusReady          (* 'Sẵn sàng kết nối' *)
| StatusInitAudio      (* 'Đang khởi tạo âm thanh...' *)
| StatusConnecting     (* 'Đang kết nối với Gemini...' *)
| StatusConnected      (* 'Đã kết nối! Hãy bắt đầu nói chuyện.' *)
| StatusInterrupted    (* 'Bị gián đoạn...' *)
| StatusDisconnected.  (* 'Đã ngắt kết nối' *)

Inductive Notice : Type :=
| NoticeConnected
| NoticeQuotaExceeded
| NoticeLiveApiError
| NoticeStartQuota
| NoticeStartFailed.

(** Calls made on the audio engine and on the devices. *)
Inductive Call : Type :=
| SourceConnect (source : nat)            (* source.connect(outputAnalyserNode) *)
| SourceStart (source : nat) (when : Q)   (* source.start(when) *)
| SourceStop (source : nat)               (* source.stop() *)
| TrackStop (track : nat)                 (* track.stop() *)
| ProcessorDisconnect (node : nat)        (* processorRef.current.disconnect() *)
| InputDisconnect (node : nat).           (* inputSourceRef.current.disconnect() *)

Record Session : Type := mkSession {
  isRecording : bool;
  status : Status;
  notification : option Notice;
  mediaStreamRef : option (list nat);     (* the tracks of the stream *)
  inputSourceRef : option nat;
  processorRef : option nat;
  sessionPromiseRef : option nat;
  nextStartTimeRef : Q;
  activeSourcesRef : list nat;            (* a Set, in insertion order *)
  nextSource : nat;                       (* identity of the next node made *)
  calls : list Call
}.

Definition setIsRecording (v : bool) (s : Session) : Session :=
  mkSession v (status s) (notification s) (mediaStreamRef s)
    (inputSourceRef s) (processorRef s) (sessionPromiseRef s)
    (nextStartTimeRef s) (activeSourcesRef s) (nextSource s) (calls s).

Definition setStatus (v : Status) (s : Session) : Session :=
  mkSession (isRecording s) v (notification s) (mediaStreamRef s)
    (inputSourceRef s) (processorRef s) (sessionPromiseRef s)
    (nextStartTimeRef s) (activeSourcesRef s) (nextSource s) (calls s).

Definition showNotification (v : Notice) (s : Session) : Session :=
  mkSession (isRecording s) (status s) (Some v) (mediaStreamRef s)
    (inputSourceRef s) (processorRef s) (sessionPromiseRef s)
    (nextStartTimeRef s) (activeSourcesRef s) (nextSource s) (calls s).

Definition set_mediaStreamRef (v : option (list nat)) (s : Session) : Session :=
  mkSession (isRecording s) (status s) (notification s) v
    (inputSourceRef s) (processorRef s) (sessionPromiseRef s)
    (nextStartTimeRef s) (activeSourcesRef s) (nextSource s) (calls s).

Definition set_inputSourceRef (v : option nat) (s : Session) : Session :=
  mkSession (isRecording s) (status s) (notification s) (mediaStreamRef s)
    v (processorRef s) (sessionPromiseRef s)
    (nextStartTimeRef s) (activeSourcesRef s) (nextSource s) (calls s).

Definition set_processorRef (v : option nat) (s : Session) : Session :=
  mkSession (isRecording s) (status s) (notification s) (mediaStreamRef s)
    (inputSourceRef s) v (sessionPromiseRef s)
    (nextStartTimeRef s) (activeSourcesRef s) (nextSource s) (calls s).

Definition set_sessionPromiseRef (v : option nat) (s : Session) : Session :=
  mkSession (isRecording s) (status s) (notification s) (mediaStreamRef s)
    (inputSourceRef s) (processorRef s) v
    (nextStartTimeRef s) (activeSourcesRef s) (nextSource s) (calls s).

Definition set_nextStartTimeRef (v : Q) (s : Session) : Session :=
  mkSession (isRecording s) (status s) (notification s) (mediaStreamRef s)
    (inputSourceRef s) (processorRef s) (sessionPromiseRef s)
    v (activeSourcesRef s) (nextSource s) (calls s).

Definition set_activeSourcesRef (v : list nat) (s : Session) : Session :=
  mkSession (isRecording s) (status s) (notification s) (mediaStreamRef s)
    (inputSourceRef s) (processorRef s) (sessionPromiseRef s)
    (nextStartTimeRef s) v (nextSource s) (calls s).

Definition set_nextSource (v : nat) (s : Session) : Session :=
  mkSession (isRecording s) (status s) (notification s) (mediaStreamRef s)
    (inputSourceRef s) (processorRef s) (sessionPromiseRef s)
    (nextStartTimeRef s) (activeSourcesRef s) v (calls s).

Definition call (cs : list Call) (s : Session) : Session :=
  mkSession (isRecording s) (status s) (notification s) (mediaStreamRef s)
    (inputSourceRef s) (processorRef s) (sessionPromiseRef s)
    (nextStartTimeRef s) (activeSourcesRef s) (nextSource s) (calls s ++ cs).

(** [Set.prototype.add] and [Set.prototype.delete] *)
Definition set_add (x : nat) (l : list nat) : list nat :=
  if existsb (Nat.eqb x) l then l else l ++ [x].

Definition set_delete (x : nat) (l : list nat) : list nat :=
  filter (fun y => negb (Nat.eqb x y)) l.

(* ------------------------------------------------------------------ *)
(** ** LiveSession: handlers *)

(** [activeSourcesRef.current.forEach(s => { try { s.stop(); } catch(e) {} });
     activeSourcesRef.current.clear();] *)
Definition stopActiveSources (s : Session) : Session :=
  set_activeSourcesRef [] (call (map SourceStop (activeSourcesRef s)) s).

Definition cleanup (s : Session) : Session :=
  (* Stop all active audio sources *)
  let s := stopActiveSources s in
  (* Close media stream (mic) *)
  let s := match mediaStreamRef s with
           | Some tracks => set_mediaStreamRef None (call (map TrackStop tracks) s)
           | None => s
           end in
  (* Disconnect processor *)
  let s := match processorRef s with
           | Some p => set_processorRef None (call [ProcessorDisconnect p] s)
           | None => s
           end in
  let s := match inputSourceRef s with
           | Some i => set_inputSourceRef None (call [InputDisconnect i] s)
           | None => s
           end in
  let s := set_sessionPromiseRef None s in
  let s := setIsRecording false s in
  setStatus StatusReady s.

Record LiveServerMessage : Type := mkMessage {
  interrupted : bool;            (* message.serverContent?.interrupted *)
  inlineData : option string     (* modelTurn?.parts?.[0]?.inlineData, its data *)
}.

(** The interruption branch of [onmessage]; [now] is [ctx.currentTime]. *)
Definition interrupt (now : Q) (s : Session) : Session :=
  let s := setStatus StatusInterrupted s in
  let s := stopActiveSources s in
  set_nextStartTimeRef now s.

(** The playback branch of [onmessage], from the decoded buffer on. *)
Definition schedule (now : Q) (audioBuffer : AudioBuffer) (s : Session)
  : Session :=
  let source := nextSource s in                      (* ctx.createBufferSource() *)
  let s := set_nextSource (S source) s in
  let s := call [SourceConnect source] s in
  let scheduleTime := Qmax (nextStartTimeRef s) now in
  let s := call [SourceStart source scheduleTime] s in
  let s := set_nextStartTimeRef (scheduleTime + duration audioBuffer)%Q s in
  set_activeSourcesRef (set_add source (activeSourcesRef s)) s.

(** [source.onended] *)
Definition onended (source : nat) (s : Session) : Session :=
  set_activeSourcesRef (set_delete source (activeSourcesRef s)) s.

Inductive Exn : Type :=
| InvalidCharacterError      (* thrown by atob *)
| NotSupportedError.         (* thrown by createBuffer *)

Inductive Outcome : Type :=
| Returned
| Thrown (e : Exn).

(** [onmessage].  An exception leaves the state as it is at the throw:
    nothing in the handler catches it. *)
Definition onmessage (now : Q) (message : LiveServerMessage) (s : Session)
  : Session * Outcome :=
  let s := if interrupted message then interrupt now s else s in
  match inlineData message with
  | None => (s, Returned)
  | Some b64Data =>
      if String.eqb b64Data "" then (s, Returned)
      else
        match base64ToUint8Array b64Data with
        | None => (s, Thrown InvalidCharacterError)
        | Some pcmData =>
            match pcmToAudioBuffer pcmData 24000 1 with
            | None => (s, Thrown NotSupportedError)
            | Some audioBuffer => (schedule now audioBuffer s, Returned)
            end
        end
  end.

Definition onopen (source processor : nat) (s : Session) : Session :=
  let s := setStatus StatusConnected s in
  let s := setIsRecording true s in
  let s := showNotification NoticeConnected s in
  let s := set_inputSourceRef (Some source) s in
  set_processorRef (Some processor) s.

Definition onclose (s : Session) : Session :=
  cleanup (setStatus StatusDisconnected s).

Definition notice_of (k : ErrorKind) : Notice :=
  match k with
  | TransportRateLimited => NoticeQuotaExceeded
  | TransportError => NoticeLiveApiError
  end.

Definition onerror (e : JsError) (s : Session) : Session :=
  cleanup (showNotification (notice_of (classify (errorMessage e))) s).

(** The events the component reacts to, and a run of the component. *)
Inductive Event : Type :=
| Opened (source processor : nat)
| Message (now : Q) (message : LiveServerMessage)
| Ended (source : nat)
| Closed
| Errored (e : JsError)
| StopClicked.

Definition handle (s : Session) (ev : Event) : Session :=
  match ev with
  | Opened source processor => onopen source processor s
  | Message now message => fst (onmessage now message s)
  | Ended source => onended source s
  | Closed => onclose s
  | Errored e => onerror e s
  | StopClicked => cleanup s
  end.

Definition run (s : Session) (evs : list Event) : Session :=
  fold_left handle evs s.

(** The states the specification names. *)
Definition idle (s : Session) : Prop :=
  isRecording s = false /\ status s = StatusReady
  /\ mediaStreamRef s = None /\ inputSourceRef s = None
  /\ processorRef s = None /\ sessionPromiseRef s = None
  /\ activeSourcesRef s = [].

Definition streaming (s : Session) : Prop :=
  isRecording s = true
  /\ mediaStreamRef s <> None /\ inputSourceRef s <> None
  /\ processorRef s <> None /\ sessionPromiseRef s <> None.

(** What is released by a teardown begun in [s]. *)
Definition releases (s : Session) : list Call :=
  map SourceStop (activeSourcesRef s)
  ++ match mediaStreamRef s with Some tracks => map TrackStop tracks | None => [] end
  ++ match processorRef s with Some p => [ProcessorDisconnect p] | None => [] end
  ++ match inputSourceRef s with Some i => [InputDisconnect i] | None => [] end.

Definition is_call (c d : Call) : bool :=
  match c, d with
  | SourceStop a, SourceStop b
  | TrackStop a, TrackStop b
  | ProcessorDisconnect a, ProcessorDisconnect b
  | InputDisconnect a, InputDisconnect b
  | SourceConnect a, SourceConnect b => Nat.eqb a b
  | SourceStart a t, SourceStart b u => Nat.eqb a b && Qeq_bool t u
  | _, _ => false
  end.

Definition count_call (c : Call) (l : list Call) : nat :=
  length (filter (is_call c) l).

(** The calls that release a resource. *)
Definition is_release (c : Call) : Prop :=
  match c with
  | SourceStop _ | TrackStop _ | ProcessorDisconnect _ | InputDisconnect _ => True
  | SourceConnect _ | SourceStart _ _ => False
  end.

(** The start times given to [source.start], in the order of the calls. *)
Fixpoint startTimes (l : list Call) : list Q :=
  match l with
  | [] => []
  | SourceStart _ when :: l' => when :: startTimes l'
  | _ :: l' => startTimes l'
  end.

End Live.


(* ------------------------------------------------------------------ *)
(** ** The codec as the specification words it

    These definitions follow the specification's sentences, to be
    compared with the functions embedded from the source. *)

(** "clamp each sample to [-1,1]" *)
Definition clamp (q : Q) : Q := Qmax (-1) (Qmin 1 q).

(** "scale negative values by 32768, non-negative values by 32767" *)
Definition scale (c : Q) : Q :=
  if negb (Qle_bool 0 c) then c * inject_Z 32768 else c * inject_Z 32767.

(** "round to nearest integer" *)
Definition round_nearest (q : Q) : Z := Qfloor (q + (1 # 2)).

(** [encode] with the rounding of the specification. *)
Definition encode_rounding (samples : list Q) : Uint8Array :=
  int16_buffer (map (fun x => round_nearest (scale (clamp x))) samples).

(** [encode] with truncation toward zero in place of rounding. *)
Definition encode_truncating (samples : list Q) : Uint8Array :=
  int16_buffer (map (fun x => Qtrunc (scale (clamp x))) samples).

(** [decode(encode([s]))]: the channel data of the buffer decoded from the
    chunk encoded from one sample. *)
Definition roundtrip_sample (s : float) : option (list (list Q)) :=
  match base64ToUint8Array (float32ToB64PCM [s]) with
  | Some pcm => option_map channelData (pcmToAudioBuffer pcm 24000 1)
  | None => None
  end.

(** The 44 header bytes of a container, written out. *)
Definition wav_header (dataLength sampleRate numChannels : Z) : list byte :=
  map charCodeAt (list_ascii_of_string "RIFF")
  ++ (let u := to_integer (js_add (Some 36) (Some dataLength))
               mod 4294967296 in
      [byte_of_Z u; byte_of_Z (u / 256); byte_of_Z (u / 65536);
       byte_of_Z (u / 16777216)])
  ++ map charCodeAt (list_ascii_of_string "WAVEfmt ")
  ++ [x10; x00; x00; x00; x01; x00]
  ++ (let u := numChannels mod 65536 in [byte_of_Z u; byte_of_Z (u / 256)])
  ++ (let u := sampleRate mod 4294967296 in
      [byte_of_Z u; byte_of_Z (u / 256); byte_of_Z (u / 65536);
       byte_of_Z (u / 16777216)])
  ++ (let u := to_integer (js_mul (js_mul (Some sampleRate) (Some numChannels))
                                  (Some 2))
               mod 4294967296 in
      [byte_of_Z u; byte_of_Z (u / 256); byte_of_Z (u / 65536);
       byte_of_Z (u / 16777216)])
  ++ (let u := to_integer (js_mul (Some numChannels) (Some 2)) mod 65536 in
      [byte_of_Z u; byte_of_Z (u / 256)])
  ++ [x10; x00]
  ++ map charCodeAt (list_ascii_of_string "data")
  ++ (let u := dataLength mod 4294967296 in
      [byte_of_Z u; byte_of_Z (u / 256); byte_of_Z (u / 65536);
       byte_of_Z (u / 16777216)]).

(** The field widths of the container: what a header can declare. *)
Definition fits_header (dataLength sampleRate numChannels : Z) : Prop :=
  0 <= numChannels /\ numChannels * 2 < 65536
  /\ 0 <= sampleRate < 4294967296
  /\ sampleRate * numChannels * 2 < 4294967296
  /\ 36 + dataLength < 4294967296.

(** A text contains another one. *)
Definition contains (text needle : string) : Prop :=
  exists before after : string,
    text = (before ++ needle ++ after)%string.

(** The playback branch of [onmessage] up to the decoded buffer: a chunk
    that is absent or empty is skipped, one that [atob] or [createBuffer]
    refuses raises. *)
Definition decodeChunk (b64Data : string) : option AudioBuffer :=
  match base64ToUint8Array b64Data with
  | Some pcmData => pcmToAudioBuffer pcmData 24000 1
  | None => None
  end.

(** A message that carries audio and no interruption. *)
Definition audioMessage (b64Data : string) : Live.LiveServerMessage :=
  Live.mkMessage false (Some b64Data).

(** A message that only signals an interruption. *)
Definition interruptionMessage : Live.LiveServerMessage :=
  Live.mkMessage true None.

(** The finite values a [Float32Array] element can take: an integer of at
    most 24 bits times a power of two between 2^-149 and 2^104. *)
Fixpoint is_pow2 (p : positive) : bool :=
  match p with
  | xH => true
  | xO p' => is_pow2 p'
  | xI _ => false
  end.

Fixpoint odd_part (p : positive) : positive :=
  match p with
  | xO p' => odd_part p'
  | _ => p
  end.

Definition is_binary32 (q : Q) : bool :=
  let r := Qred q in
  match Qnum r with
  | Z0 => true
  | Zpos n | Zneg n =>
      is_pow2 (Qden r)
      && (Z.pos (odd_part n) <? 2 ^ 24)
      && (Z.pos (Qden r) <=? 2 ^ 149)
      && (Z.pos n <? 2 ^ 128 * Z.pos (Qden r))
  end.

(** The state of the component when it is mounted. *)
Definition initial : Live.Session :=
  Live.mkSession false Live.StatusReady None None None None None 0%Q [] 0 [].

(** A session that streams: stream of one track acquired, transport open,
    capture connected, two units scheduled. *)
Definition streaming_session : Live.Session :=
  Live.mkSession true Live.StatusConnected (Some Live.NoticeConnected)
    (Some [0%nat]) (Some 0%nat) (Some 1%nat) (Some 0%nat) (1 # 4)%Q
    [0%nat; 1%nat] 2
    [Live.SourceConnect 0; Live.SourceStart 0 0%Q;
     Live.SourceConnect 1; Live.SourceStart 1 (1 # 8)%Q].

(** Three silent sample frames at 24 kHz, and their base64 text. *)
Definition silence3 : AudioBuffer :=
  mkAudioBuffer 1 3 24000 [[0 # 32768; 0 # 32768; 0 # 32768]%Q].
Definition silence3_b64 : string := "AAAAAAAA".

(* ------------------------------------------------------------------ *)
(** ** Further vocabulary for the codec *)

(** Two channels laid out frame by frame: left, right, left, right. *)
Fixpoint interleave (left right : list Z) : list Z :=
  match left, right with
  | l :: left', r :: right' => l :: r :: interleave left' right'
  | _, _ => []
  end.

(** The value decoded from a 16-bit word. *)
Definition int16ToFloat (v : Z) : Q := v # 32768.

(** What a 16-bit word becomes when it is decoded and encoded again. *)
Definition reencoded (v : Z) : Z := if 0 <? v then v - 1 else v.

(* ------------------------------------------------------------------ *)
(** ** LiveSession: start of a session and capture *)

Module LiveStart.
Import Live.

Definition start_notice (k : ErrorKind) : Notice :=
  match k with
  | TransportRateLimited => NoticeStartQuota
  | TransportError => NoticeStartFailed
  end.

(** [startSession] runs in pieces, the component being free to react to
    other events while the microphone permission is awaited.  The audio
    contexts and the analyser node made here are the environment of the
    handlers ([ctx] in [onmessage]); they are not fields of [Session].

    First piece, up to the request for the microphone; [now] is
    [ctx.currentTime] of the new context. *)
Definition startSession_begin (now : Q) (s : Session) : Session :=
  let s := setStatus StatusInitAudio s in
  set_nextStartTimeRef now s.

(** [getUserMedia] resolved with a stream that has these tracks. *)
Definition startSession_stream (tracks : list nat) (s : Session) : Session :=
  let s := set_mediaStreamRef (Some tracks) s in
  setStatus StatusConnecting s.

(** [sessionPromiseRef.current = ai.live.connect(...)] *)
Definition startSession_connect (session : nat) (s : Session) : Session :=
  set_sessionPromiseRef (Some session) s.

(** The [catch] of [startSession], for an exception raised at any of
    its steps. *)
Definition startSession_catch (err : JsError) (s : Session) : Session :=
  let s := showNotification
             (start_notice (classify_start (errorMessage err))) s in
  cleanup s.

(** [processor.onaudioprocess]: the data handed to
    [session.sendRealtimeInput] with the MIME type audio/pcm;rate=16000
    once the session promise resolves, or nothing when the session
    reference is null. *)
Definition onaudioprocess (inputData : list float) (s : Session)
  : option string :=
  let b64Data := float32ToB64PCM inputData in
  match sessionPromiseRef s with
  | Some _ => Some b64Data
  | None => None
  end.

(** Everything the component reacts to. *)
Inductive Action : Type :=
| StartClicked (now : Q)
| StreamGranted (tracks : list nat)
| Connecting (session : nat)
| StartFailed (err : JsError)
| Dispatch (ev : Event).

Definition act (s : Session) (a : Action) : Session :=
  match a with
  | StartClicked now => startSession_begin now s
  | StreamGranted tracks => startSession_stream tracks s
  | Connecting session => startSession_connect session s
  | StartFailed err => startSession_catch err s
  | Dispatch ev => handle s ev
  end.

Definition play (s : Session) (actions : list Action) : Session :=
  fold_left act actions s.

(** The three ways a session is torn down. *)
Definition is_teardown (ev : Event) : bool :=
  match ev with
  | Closed | Errored _ | StopClicked => true
  | Opened _ _ | Message _ _ | Ended _ => false
  end.

(** Messages without an interruption, and ends of sources. *)
Definition is_quiet (ev : Event) : bool :=
  match ev with
  | Message _ message => negb (interrupted message)
  | Ended _ => true
  | Opened _ _ | Closed | Errored _ | StopClicked => false
  end.

(** Messages and ends of sources. *)
Definition is_playback (ev : Event) : bool :=
  match ev with
  | Message _ _ | Ended _ => true
  | Opened _ _ | Closed | Errored _ | StopClicked => false
  end.

End LiveStart.

(** What every reachable session satisfies: the active set holds each of
    its sources once, all of them made before the next one; the status
    is never the one of a disconnection; a recording session has its
    capture nodes. *)
Definition well_formed (s : Live.Session) : Prop :=
  NoDup (Live.activeSourcesRef s)
  /\ Forall (fun a => (a < Live.nextSource s)%nat) (Live.activeSourcesRef s)
  /\ Live.status s <> Live.StatusDisconnected
  /\ (Live.isRecording s = false
      \/ (Live.inputSourceRef s <> None /\ Live.processorRef s <> None)).

(* ------------------------------------------------------------------ *)
(** ** TextToSpeech: playback and download of the generated audio *)

Module Speech.

Inductive Call : Type :=
| GainConnect (gain : nat)              (* gainNode.connect(ctx.destination) *)
| SourceConnect (source gain : nat)     (* source.connect(gainNode) *)
| SourceStart (source : nat)            (* source.start() *)
| SourceStop (source : nat).            (* sourceNodeRef.current.stop() *)

Inductive Notice : Type :=
| NoticeNoAudio                          (* no audio data in the response *)
| NoticeQuota                            (* quota exceeded *)
| NoticeFailed (errorMessage : string).  (* `Lỗi tạo giọng nói: ${errorMessage}` *)

Record State : Type := mkState {
  isLoading : bool;
  isPlaying : bool;
  lastGeneratedAudio : option Uint8Array;
  notification : option Notice;
  sourceNodeRef : option nat;
  gainNodeRef : option nat;
  nextNode : nat;                        (* identity of the next node made *)
  waiting : list Uint8Array;             (* calls of playAudio paused at
                                            `await ctx.resume()`, oldest first *)
  ended : list nat;                      (* sources whose `ended` event was
                                            dispatched *)
  calls : list Call
}.

Definition setIsLoading (v : bool) (s : State) : State :=
  mkState v (isPlaying s) (lastGeneratedAudio s) (notification s)
    (sourceNodeRef s) (gainNodeRef s) (nextNode s) (waiting s) (ended s)
    (calls s).

Definition setIsPlaying (v : bool) (s : State) : State :=
  mkState (isLoading s) v (lastGeneratedAudio s) (notification s)
    (sourceNodeRef s) (gainNodeRef s) (nextNode s) (waiting s) (ended s)
    (calls s).

Definition setLastGeneratedAudio (v : option Uint8Array) (s : State) : State :=
  mkState (isLoading s) (isPlaying s) v (notification s)
    (sourceNodeRef s) (gainNodeRef s) (nextNode s) (waiting s) (ended s)
    (calls s).

Definition showNotification (v : Notice) (s : State) : State :=
  mkState (isLoading s) (isPlaying s) (lastGeneratedAudio s) (Some v)
    (sourceNodeRef s) (gainNodeRef s) (nextNode s) (waiting s) (ended s)
    (calls s).

Definition set_sourceNodeRef (v : option nat) (s : State) : State :=
  mkState (isLoading s) (isPlaying s) (lastGeneratedAudio s) (notification s)
    v (gainNodeRef s) (nextNode s) (waiting s) (ended s) (calls s).

Definition set_gainNodeRef (v : option nat) (s : State) : State :=
  mkState (isLoading s) (isPlaying s) (lastGeneratedAudio s) (notification s)
    (sourceNodeRef s) v (nextNode s) (waiting s) (ended s) (calls s).

Definition set_nextNode (v : nat) (s : State) : State :=
  mkState (isLoading s) (isPlaying s) (lastGeneratedAudio s) (notification s)
    (sourceNodeRef s) (gainNodeRef s) v (waiting s) (ended s) (calls s).

Definition set_waiting (v : list Uint8Array) (s : State) : State :=
  mkState (isLoading s) (isPlaying s) (lastGeneratedAudio s) (notification s)
    (sourceNodeRef s) (gainNodeRef s) (nextNode s) v (ended s) (calls s).

Definition set_ended (v : list nat) (s : State) : State :=
  mkState (isLoading s) (isPlaying s) (lastGeneratedAudio s) (notification s)
    (sourceNodeRef s) (gainNodeRef s) (nextNode s) (waiting s) v (calls s).

Definition call (cs : list Call) (s : State) : State :=
  mkState (isLoading s) (isPlaying s) (lastGeneratedAudio s) (notification s)
    (sourceNodeRef s) (gainNodeRef s) (nextNode s) (waiting s) (ended s)
    (calls s ++ cs).

Definition stopAudio (s : State) : State :=
  let s := match sourceNodeRef s with
           | Some source => set_sourceNodeRef None (call [SourceStop source] s)
           | None => s
           end in
  setIsPlaying false s.

(** The [try] block of [playAudio], which runs without a pause.  A chunk
    that [pcmToAudioBuffer] refuses is caught and logged. *)
Definition playAudio_resumed (pcmBytes : Uint8Array) (s : State) : State :=
  match pcmToAudioBuffer pcmBytes 24000 1 with
  | None => s                                   (* console.error *)
  | Some buffer =>
      let source := nextNode s in
      let gainNode := S (nextNode s) in
      let s := set_nextNode (S (S (nextNode s))) s in
      let s := call [GainConnect gainNode; SourceConnect source gainNode] s in
      let s := set_sourceNodeRef (Some source) s in
      let s := set_gainNodeRef (Some gainNode) s in
      let s := call [SourceStart source] s in
      setIsPlaying true s
  end.

(** [playAudio] up to the point where it returns to its caller.
    [suspended] is [ctx.state === 'suspended']: on a suspended context the
    function stops the previous source and then waits for
    [ctx.resume()], so that other handlers run before its [try] block; on
    any other context it runs to its end. *)
Definition playAudio (suspended : bool) (pcmBytes : Uint8Array) (s : State)
  : State :=
  let s := stopAudio s in
  if suspended then set_waiting (waiting s ++ [pcmBytes]) s
  else playAudio_resumed pcmBytes s.

(** The promise of [ctx.resume()] is settled and the oldest paused call
    of [playAudio] goes on. *)
Definition resumed (s : State) : State :=
  match waiting s with
  | [] => s
  | pcmBytes :: rest => playAudio_resumed pcmBytes (set_waiting rest s)
  end.

(** The promise of [ctx.resume()] is rejected: the oldest paused call of
    [playAudio] ends there, before its [try] block. *)
Definition rejected (s : State) : State :=
  match waiting s with
  | [] => s
  | _ :: rest => set_waiting rest s
  end.

(** [source.onended], the same function for every source. *)
Definition onended (s : State) : State := setIsPlaying false s.

(** The [catch] and the [finally] of [handleGenerateAndPlay]. *)
Definition generate_catch (error : JsError) (s : State) : State :=
  let errorMessage := errorMessage error in
  let s := match classify errorMessage with
           | TransportRateLimited => showNotification NoticeQuota s
           | TransportError => showNotification (NoticeFailed errorMessage) s
           end in
  setIsLoading false s.

(** [handleGenerateAndPlay] up to the request; [blank] is [!text.trim()]. *)
Definition generate_begin (blank : bool) (s : State) : State :=
  if blank then s
  else setLastGeneratedAudio None (setIsLoading true s).

(** [handleGenerateAndPlay] from the response on.  [audioData] is the
    data of the first inline part, when there is one; [atobError] is the
    exception that [atob] raises on a text that is not base64;
    [suspended] is the state of the audio context.  [playAudio] is not
    awaited: the [finally] runs when it returns or pauses. *)
Definition generate_response (audioData : option string) (atobError : JsError)
           (suspended : bool) (s : State) : State :=
  match audioData with
  | None => setIsLoading false (showNotification NoticeNoAudio s)
  | Some data =>
      if String.eqb data ""
      then setIsLoading false (showNotification NoticeNoAudio s)
      else
        match base64ToUint8Array data with
        | None => generate_catch atobError s
        | Some pcmBytes =>
            let s := setLastGeneratedAudio (Some pcmBytes) s in
            let s := playAudio suspended pcmBytes s in
            setIsLoading false s
        end
  end.

(** [downloadAudio]: the bytes of the WAV blob offered for download, or
    nothing when no audio was generated. *)
Definition downloadAudio (s : State) : option (list byte) :=
  match lastGeneratedAudio s with
  | None => None
  | Some pcm => Some (pcmToWav pcm 24000 1)
  end.

Definition initial : State :=
  mkState false false None None None None 0 [] [] [].

(** What happens to the component.  [Ended source] is the [ended] event
    of a source, which ends by itself or because it was stopped; the
    event is recorded and the handler of the source runs. *)
Inductive Event : Type :=
| GenerateClicked (blank : bool)
| Response (audioData : option string) (atobError : JsError) (suspended : bool)
| Failed (error : JsError)
| Resumed
| ResumeRejected
| StopClicked
| Ended (source : nat).

Definition handle (s : State) (ev : Event) : State :=
  match ev with
  | GenerateClicked blank => generate_begin blank s
  | Response audioData atobError suspended =>
      generate_response audioData atobError suspended s
  | Failed error => generate_catch error s
  | Resumed => resumed s
  | ResumeRejected => rejected s
  | StopClicked => stopAudio s
  | Ended source => onended (set_ended (ended s ++ [source]) s)
  end.

Definition run (s : State) (evs : list Event) : State := fold_left handle evs s.

(** A source was started. *)
Definition started (source : nat) (l : list Call) : bool :=
  existsb (fun c => match c with
                    | SourceStart a => Nat.eqb a source
                    | GainConnect _ | SourceConnect _ _ | SourceStop _ => false
                    end) l.

(** The events that the interface and the platform allow in a state.
    The page shows the Stop button while [isPlaying] and the Generate
    button otherwise, disabled while [isLoading] or on a blank text; a
    response or a failure ends the request in flight; a paused playback
    goes on or is abandoned when there is one; a source that was started
    ends once. *)
Definition enabled (s : State) (ev : Event) : bool :=
  match ev with
  | GenerateClicked blank =>
      negb (isPlaying s) && negb (isLoading s) && negb blank
  | Response _ _ _ | Failed _ => isLoading s
  | Resumed | ResumeRejected =>
      match waiting s with [] => false | _ :: _ => true end
  | StopClicked => isPlaying s
  | Ended source =>
      started source (calls s) && negb (existsb (Nat.eqb source) (ended s))
  end.

Fixpoint valid (s : State) (evs : list Event) : bool :=
  match evs with
  | [] => true
  | ev :: evs => enabled s ev && valid (handle s ev) evs
  end.

(** The events of a component whose audio context is not suspended
    whenever a response arrives. *)
Definition running (ev : Event) : bool :=
  match ev with
  | Response _ _ suspended => negb suspended
  | GenerateClicked _ | Failed _ | Resumed | ResumeRejected | StopClicked
  | Ended _ => true
  end.

(** The sources that were started and not stopped since, read off the
    calls. *)
Definition track (live : list nat) (c : Call) : list nat :=
  match c with
  | SourceStart source => live ++ [source]
  | SourceStop source => filter (fun a => negb (Nat.eqb source a)) live
  | GainConnect _ | SourceConnect _ _ => live
  end.

Definition unstopped (l : list Call) : list nat := fold_left track l [].

(** The sources that sound: started, not stopped and not ended. *)
Definition sounding (s : State) : list nat :=
  filter (fun a => negb (existsb (Nat.eqb a) (ended s))) (unstopped (calls s)).

(** The source the component holds, as a list. *)
Definition held (s : State) : list nat :=
  match sourceNodeRef s with
  | Some source => [source]
  | None => []
  end.

(** Sources are numbered in the order they are made: those that were
    started or have ended are older than the next one. *)
Definition older (k : nat) (c : Call) : Prop :=
  match c with
  | SourceStart a => (a < k)%nat
  | GainConnect _ | SourceConnect _ _ | SourceStop _ => True
  end.

Definition well_numbered (s : State) : Prop :=
  Forall (fun a => (a < nextNode s)%nat) (ended s)
  /\ Forall (older (nextNode s)) (calls s).

(** Two requests answered on a suspended context, which then resumes. *)
Definition interleaved (data1 data2 : string) (atobError : JsError)
  : list Event :=
  [GenerateClicked false; Response (Some data1) atobError true;
   GenerateClicked false; Response (Some data2) atobError true;
   Resumed; Resumed].

End Speech.
(* ------------------------------------------------------------------ *)
(** * Bytes *)

Lemma byte_to_Z_range (b : byte) : 0 <= byte_to_Z b < 256.
Proof.
  unfold byte_to_Z. pose proof (Byte.to_N_bounded b). lia.
Qed.

Lemma byte_of_to_Z (b : byte) : byte_of_Z (byte_to_Z b) = b.
Proof.
  unfold byte_of_Z. pose proof (byte_to_Z_range b) as Hb.
  rewrite Z.mod_small by exact Hb.
  unfold byte_to_Z. rewrite N2Z.id, Byte.of_to_N. reflexivity.
Qed.

Lemma byte_to_of_Z (z : Z) : byte_to_Z (byte_of_Z z) = z mod 256.
Proof.
  unfold byte_of_Z, byte_to_Z.
  pose proof (Z.mod_pos_bound z 256 ltac:(lia)) as Hm.
  destruct (Byte.of_N (Z.to_N (z mod 256))) as [b|] eqn:E.
  - apply Byte.to_of_N in E. rewrite E. lia.
  - apply Byte.of_N_None_iff in E. lia.
Qed.

Lemma char_of_code_point (c : ascii) : char_of_code (code_point c) = c.
Proof.
  unfold char_of_code, code_point. rewrite N2Z.id. apply ascii_N_embedding.
Qed.

Lemma code_point_range (c : ascii) : 0 <= code_point c < 256.
Proof.
  unfold code_point. pose proof (N_ascii_bounded c). lia.
Qed.

Lemma charCodeAt_fromCharCode (b : byte) : charCodeAt (fromCharCode b) = b.
Proof. apply byte_of_ascii_of_byte. Qed.

(** Lists taken three elements at a time. *)
Lemma list_ind3 {A : Type} (P : list A -> Prop) :
  P [] -> (forall a, P [a]) -> (forall a b, P [a; b]) ->
  (forall a b c l, P l -> P (a :: b :: c :: l)) ->
  forall l, P l.
Proof.
  intros H0 H1 H2 H3. fix IH 1.
  intros [|a [|b [|c l]]];
    [apply H0 | apply H1 | apply H2 | apply H3, IH].
Qed.

Lemma below_cases (p : Z -> bool) (k : Z) :
  forallb p (range k) = true -> forall n, 0 <= n < k -> p n = true.
Proof.
  intros H n Hn. rewrite forallb_forall in H. apply H.
  unfold range. apply in_map_iff. exists (Z.to_nat n). split; [lia|].
  apply in_seq. lia.
Qed.

Lemma filter_all {A : Type} (f : A -> bool) (l : list A) :
  Forall (fun x => f x = true) l -> filter f l = l.
Proof.
  induction 1 as [|x l Hx _ IH]; simpl; [reflexivity|].
  rewrite Hx, IH. reflexivity.
Qed.

(* ------------------------------------------------------------------ *)
(** * Base64: decoding an encoding *)

Module Base64Facts.
Import Base64.

Lemma sextet_of_char_of_sextet n :
  is_sextet n -> sextet_of_char (char_of_sextet n) = Some n.
Proof.
  intros Hn.
  pose (p := fun n => match sextet_of_char (char_of_sextet n) with
                      | Some m => m =? n
                      | None => false
                      end).
  assert (Hp : p n = true) by (apply (below_cases p 64); [vm_compute; reflexivity | exact Hn]).
  unfold p in Hp. destruct (sextet_of_char (char_of_sextet n)); [|discriminate].
  apply Z.eqb_eq in Hp. congruence.
Qed.

Lemma char_of_sextet_plain n :
  is_sextet n ->
  is_pad (char_of_sextet n) = false
  /\ is_ascii_whitespace (char_of_sextet n) = false.
Proof.
  intros Hn.
  pose (p := fun n => negb (is_pad (char_of_sextet n))
                      && negb (is_ascii_whitespace (char_of_sextet n))).
  assert (Hp : p n = true) by (apply (below_cases p 64); [vm_compute; reflexivity | exact Hn]).
  unfold p in Hp. apply andb_true_iff in Hp. destruct Hp as [H1 H2].
  apply negb_true_iff in H1, H2. auto.
Qed.

Lemma sextets_of_bytes_range bs :
  Forall is_octet bs -> Forall is_sextet (sextets_of_bytes bs).
Proof.
  unfold is_octet, is_sextet.
  induction bs as [| a | a b | a b c l IH] using list_ind3; intros H;
    cbn [sextets_of_bytes].
  - constructor.
  - inversion_clear H.
    repeat (apply Forall_cons; [lia|]). constructor.
  - inversion_clear H as [|? ? Ha H']. inversion_clear H' as [|? ? Hb _].
    repeat (apply Forall_cons; [lia|]). constructor.
  - inversion_clear H as [|? ? Ha H']. inversion_clear H' as [|? ? Hb H''].
    inversion_clear H'' as [|? ? Hc Hl].
    repeat (apply Forall_cons; [lia|]). apply IH, Hl.
Qed.

Lemma bytes_of_sextets_of_bytes bs :
  Forall is_octet bs -> bytes_of_sextets (sextets_of_bytes bs) = bs.
Proof.
  unfold is_octet.
  induction bs as [| a | a b | a b c l IH] using list_ind3; intros H;
    cbn [sextets_of_bytes bytes_of_sextets].
  - reflexivity.
  - inversion_clear H. f_equal. lia.
  - inversion_clear H as [|? ? Ha H']. inversion_clear H' as [|? ? Hb _].
    f_equal; [lia|]. f_equal. lia.
  - inversion_clear H as [|? ? Ha H']. inversion_clear H' as [|? ? Hb H''].
    inversion_clear H'' as [|? ? Hc Hl].
    rewrite (IH Hl).
    f_equal; [lia|]. f_equal; [lia|]. f_equal. lia.
Qed.

Lemma sextets_of_chars_of_sextets ss :
  Forall is_sextet ss -> sextets_of_chars (map char_of_sextet ss) = Some ss.
Proof.
  induction 1 as [|n ss Hn _ IH]; cbn [map sextets_of_chars]; [reflexivity|].
  rewrite (sextet_of_char_of_sextet n Hn), IH. reflexivity.
Qed.

Lemma sextets_length_mod4 bs :
  (Z.of_nat (length (sextets_of_bytes bs)) mod 4 =? 1) = false.
Proof.
  induction bs as [| a | a b | a b c l IH] using list_ind3;
    cbn [sextets_of_bytes]; try reflexivity.
  apply Z.eqb_neq. apply Z.eqb_neq in IH.
  cbn [length]. lia.
Qed.

(** Stripping the padding of an encoding gives back its sextet characters. *)
Lemma strip_padding_encode bs : forall pre,
  Forall plain pre ->
  Z.of_nat (length pre) mod 4 = 0 ->
  Forall is_octet bs ->
  strip_padding (pre ++ encode bs)
  = pre ++ map char_of_sextet (sextets_of_bytes bs).
Proof.
  unfold encode.
  induction bs as [| a | a b | a b c l IH] using list_ind3;
    intros pre Hpre Hlen Hbs.
  - (* no byte: nothing to strip *)
    cbn. rewrite app_nil_r. unfold strip_padding. rewrite Hlen. cbn.
    destruct (rev pre) as [|c1 r1] eqn:E; [reflexivity|].
    assert (Hc : plain c1).
    { rewrite Forall_forall in Hpre. apply Hpre, in_rev. rewrite E. left. reflexivity. }
    unfold plain in Hc. rewrite Hc. reflexivity.
  - (* one byte: two characters and two pads *)
    cbn [sextets_of_bytes map length padding Nat.modulo Nat.divmod fst snd Nat.sub app].
    unfold strip_padding.
    replace (Z.of_nat (length (pre ++ _)) mod 4 =? 0) with true
      by (symmetry; apply Z.eqb_eq; rewrite length_app; cbn [length]; lia).
    rewrite rev_app_distr. cbn [rev app].
    replace (is_pad pad_char) with true by reflexivity.
    rewrite rev_involutive, <- !app_assoc. reflexivity.
  - (* two bytes: three characters and one pad *)
    cbn [sextets_of_bytes map length padding Nat.modulo Nat.divmod fst snd Nat.sub app].
    unfold strip_padding.
    replace (Z.of_nat (length (pre ++ _)) mod 4 =? 0) with true
      by (symmetry; apply Z.eqb_eq; rewrite length_app; cbn [length]; lia).
    rewrite rev_app_distr. cbn [rev app].
    replace (is_pad pad_char) with true by reflexivity.
    assert (Hs : Forall is_sextet (sextets_of_bytes [a; b]))
      by (apply sextets_of_bytes_range, Hbs).
    cbn [sextets_of_bytes] in Hs.
    inversion_clear Hs as [|? ? _ Hs']. inversion_clear Hs' as [|? ? _ Hs''].
    inversion_clear Hs'' as [|? ? H3 _].
    destruct (char_of_sextet_plain _ H3) as [Hp _]. rewrite Hp.
    rewrite rev_involutive, <- !app_assoc. reflexivity.
  - (* three bytes and more: the first four characters join the prefix *)
    assert (Hs : Forall is_sextet (sextets_of_bytes (a :: b :: c :: l)))
      by (apply sextets_of_bytes_range, Hbs).
    cbn [sextets_of_bytes] in Hs |- *.
    inversion_clear Hs as [|? ? H0 Hs']. inversion_clear Hs' as [|? ? H1 Hs''].
    inversion_clear Hs'' as [|? ? H2 Hs3]. inversion_clear Hs3 as [|? ? H3 _].
    inversion_clear Hbs as [|? ? _ Hb']. inversion_clear Hb' as [|? ? _ Hb''].
    inversion_clear Hb'' as [|? ? _ Hl].
    replace (padding (length (a :: b :: c :: l))) with (padding (length l)).
    2:{ unfold padding. cbn [length].
        replace (S (S (S (length l)))) with (length l + 1 * 3)%nat by lia.
        rewrite Nat.Div0.mod_add. reflexivity. }
    cbn [map].
    set (c0 := char_of_sextet _). set (c1 := char_of_sextet _).
    set (c2 := char_of_sextet _). set (c3 := char_of_sextet _).
    specialize (IH (pre ++ [c0; c1; c2; c3])).
    rewrite <- !app_assoc in IH. cbn [app] in IH |- *.
    apply IH; [| | exact Hl].
    + apply Forall_app. split; [exact Hpre|].
      subst c0 c1 c2 c3.
      repeat (apply Forall_cons; [apply char_of_sextet_plain; assumption|]).
      constructor.
    + rewrite length_app. cbn [length]. lia.
Qed.

Lemma encode_no_whitespace bs :
  Forall is_octet bs ->
  filter (fun c => negb (is_ascii_whitespace c)) (encode bs) = encode bs.
Proof.
  intros Hbs. apply filter_all. unfold encode. apply Forall_app. split.
  - apply Forall_map.
    eapply Forall_impl; [|apply sextets_of_bytes_range, Hbs].
    intros n Hn. cbv beta. destruct (char_of_sextet_plain n Hn) as [_ Hw].
    rewrite Hw. reflexivity.
  - unfold padding. destruct (length bs mod 3)%nat as [|[|[|k]]];
      repeat constructor.
Qed.

Theorem decode_encode bs :
  Forall is_octet bs -> decode (encode bs) = Some bs.
Proof.
  intros Hbs. unfold decode.
  rewrite (encode_no_whitespace bs Hbs).
  pose proof (strip_padding_encode bs [] (Forall_nil _) eq_refl Hbs) as Hs.
  cbn [app] in Hs. rewrite Hs. rewrite length_map, sextets_length_mod4.
  rewrite sextets_of_chars_of_sextets by (apply sextets_of_bytes_range, Hbs).
  cbn [option_map]. rewrite (bytes_of_sextets_of_bytes bs Hbs). reflexivity.
Qed.

End Base64Facts.

Lemma code_points_octets (l : list ascii) :
  Forall Base64.is_octet (map code_point l).
Proof.
  apply Forall_map, Forall_forall. intros c _. apply code_point_range.
Qed.

Lemma map_id_on {A : Type} (f : A -> A) (l : list A) :
  (forall x, f x = x) -> map f l = l.
Proof.
  intros H. induction l as [|x l IH]; cbn; [reflexivity|].
  rewrite H, IH. reflexivity.
Qed.

Lemma atob_btoa (s : string) : atob (btoa s) = Some s.
Proof.
  unfold atob, btoa.
  rewrite list_ascii_of_string_of_list_ascii.
  rewrite Base64Facts.decode_encode by apply code_points_octets.
  cbn [option_map]. rewrite map_map.
  rewrite (map_id_on _ _ char_of_code_point).
  rewrite string_of_list_ascii_of_string. reflexivity.
Qed.

Lemma base64_roundtrip (bytes : Uint8Array) :
  base64ToUint8Array (uint8ArrayToBase64 bytes) = Some bytes.
Proof.
  unfold base64ToUint8Array, uint8ArrayToBase64.
  rewrite atob_btoa, list_ascii_of_string_of_list_ascii, map_map.
  rewrite (map_id_on _ _ charCodeAt_fromCharCode). reflexivity.
Qed.

(* ------------------------------------------------------------------ *)
(** * The PCM codec *)

Lemma quot_bounds (n d : Z) :
  0 < d ->
  (0 <= n -> d * (n ÷ d) <= n < d * (n ÷ d) + d)
  /\ (n <= 0 -> d * (n ÷ d) - d < n <= d * (n ÷ d)).
Proof.
  intros Hd. split; intros Hn; nia.
Qed.

Lemma clamp_cases (q : Q) :
  (clamp q = q /\ (-1 <= q)%Q /\ (q <= 1)%Q)
  \/ (clamp q = 1%Q /\ (1 <= q)%Q)
  \/ (clamp q = (-1)%Q /\ (q <= -1)%Q).
Proof.
  unfold clamp, Qmax, Qmin, GenericMinMax.gmax, GenericMinMax.gmin.
  destruct (Qcompare 1 q) eqn:E1.
  - right. left. apply Qeq_alt in E1. split; [reflexivity|]. rewrite <- E1. apply Qle_refl.
  - right. left. apply Qlt_alt in E1. split; [reflexivity|]. apply Qlt_le_weak, E1.
  - apply Qgt_alt in E1.
    destruct (Qcompare (-1) q) eqn:E2.
    + right. right. apply Qeq_alt in E2. split; [reflexivity|]. rewrite <- E2. apply Qle_refl.
    + left. apply Qlt_alt in E2. repeat split; apply Qlt_le_weak; assumption.
    + right. right. apply Qgt_alt in E2. split; [reflexivity|]. apply Qlt_le_weak, E2.
Qed.

Lemma float32ToInt16_Fin (q : Q) :
  float32ToInt16 (Fin q) = toInt16 (Qtrunc (scale (clamp q))).
Proof.
  unfold float32ToInt16, scale, clamp. cbn [Math_min Math_max lt_zero].
  destruct (negb (Qle_bool 0 (Qmax (-1) (Qmin 1 q)))); reflexivity.
Qed.

Lemma Qtrunc_scale (c : Q) :
  Qtrunc (scale c)
  = if negb (Qle_bool 0 c) then (Qnum c * 32768) ÷ Z.pos (Qden c)
    else (Qnum c * 32767) ÷ Z.pos (Qden c).
Proof.
  unfold scale, Qtrunc. destruct c as [n d].
  destruct (negb (Qle_bool 0 (n # d))); cbn [Qmult Qnum Qden inject_Z];
    rewrite Pos.mul_1_r; reflexivity.
Qed.

Lemma lt_zero_num (c : Q) : negb (Qle_bool 0 c) = (Qnum c <? 0).
Proof.
  destruct c as [n d]. unfold Qle_bool. cbn [Qnum Qden].
  destruct (Z.leb_spec (0 * Z.pos d) (n * 1)); destruct (Z.ltb_spec n 0); cbn; lia.
Qed.

(** The 16-bit value written for a clamped sample, between its bounds. *)
Lemma Qtrunc_scale_bounds (c : Q) :
  (-1 <= c)%Q -> (c <= 1)%Q ->
  let v := Qtrunc (scale c) in
  let n := Qnum c in let d := Z.pos (Qden c) in
  -32768 <= v <= 32767
  /\ (0 <= n -> d * v <= 32767 * n < d * v + d)
  /\ (n < 0 -> d * v - d < 32768 * n <= d * v).
Proof.
  intros Hlo Hhi. cbv zeta. rewrite Qtrunc_scale, lt_zero_num.
  destruct c as [n d]. unfold Qle in Hlo, Hhi. cbn [Qnum Qden] in *.
  destruct (Z.ltb_spec n 0) as [Hn|Hn].
  - destruct (quot_bounds (n * 32768) (Z.pos d) ltac:(lia)) as [_ Hq].
    specialize (Hq ltac:(lia)).
    repeat split; nia.
  - destruct (quot_bounds (n * 32767) (Z.pos d) ltac:(lia)) as [Hq _].
    specialize (Hq ltac:(lia)).
    repeat split; nia.
Qed.

Lemma toInt16_small (z : Z) : -32768 <= z <= 32767 -> toInt16 z = z.
Proof. unfold toInt16. intros H. lia. Qed.

Lemma signed16_mod (v : Z) : -32768 <= v <= 32767 -> signed16 (v mod 65536) = v.
Proof.
  intros H. unfold signed16. destruct (Z.ltb_spec (v mod 65536) 32768); lia.
Qed.

Lemma int16_view_bytes (v : Z) (rest : list byte) :
  int16_view (int16_bytes v ++ rest) = signed16 (v mod 65536) :: int16_view rest.
Proof.
  unfold int16_bytes. cbn [app int16_view]. rewrite !byte_to_of_Z.
  f_equal. f_equal. lia.
Qed.

Lemma int16_view_buffer (a : list Z) :
  Forall (fun v => -32768 <= v <= 32767) a -> int16_view (int16_buffer a) = a.
Proof.
  unfold int16_buffer.
  induction 1 as [|v a Hv _ IH]; cbn [flat_map]; [reflexivity|].
  rewrite int16_view_bytes, IH, signed16_mod by exact Hv. reflexivity.
Qed.

Lemma float32ToInt16_range (x : float) : -32768 <= float32ToInt16 x <= 32767.
Proof.
  unfold float32ToInt16.
  destruct (if lt_zero _ then _ else _); cbn [store_int16]; unfold toInt16; lia.
Qed.

Lemma roundtrip_sample_value (x : float) :
  roundtrip_sample x = Some [[float32ToInt16 x # 32768]].
Proof.
  unfold roundtrip_sample, float32ToB64PCM. rewrite base64_roundtrip.
  unfold float32ToPCM, pcmToAudioBuffer. cbn [map].
  rewrite int16_view_buffer
    by (repeat constructor; apply float32ToInt16_range).
  reflexivity.
Qed.

Ltac Q_to_Z_hyps :=
  unfold Qlt, Qle, Qeq in * |-; cbn [Qnum Qden] in * |-.
Ltac Q_to_Z :=
  unfold Qlt, Qle, Qeq, Qminus, Qplus, Qopp; cbn [Qnum Qden].

(** Cancelling the denominator of the clamped sample. *)
Lemma scaled_bounds_transfer (n D p E v k : Z) :
  0 < D -> 0 < E -> n * E = p * D ->
  (D * v <= k * n < D * v + D -> E * v <= k * p < E * v + E)
  /\ (D * v - D < k * n <= D * v -> E * v - E < k * p <= E * v).
Proof.
  intros HD HE Heq.
  assert (Hk : k * (n * E) = k * (p * D)) by (rewrite Heq; reflexivity).
  split; intros [H1 H2].
  - apply (Z.mul_le_mono_nonneg_l _ _ E) in H1; [|lia].
    apply (Z.mul_lt_mono_pos_l E) in H2; [|lia].
    split.
    + apply (Z.mul_le_mono_pos_l _ _ D HD). lia.
    + apply (Z.mul_lt_mono_pos_l D _ _ HD). lia.
  - apply (Z.mul_lt_mono_pos_l E) in H1; [|lia].
    apply (Z.mul_le_mono_nonneg_l _ _ E) in H2; [|lia].
    split.
    + apply (Z.mul_lt_mono_pos_l D _ _ HD). lia.
    + apply (Z.mul_le_mono_pos_l _ _ D HD). lia.
Qed.

Lemma sample_error (s : Q) :
  (-1 <= s)%Q -> (s <= 1)%Q ->
  let v := (float32ToInt16 (Fin s) # 32768)%Q in
  (Qabs (v - s) < 1 # 16384)%Q
  /\ ((s <= 0)%Q -> (Qabs (v - s) < 1 # 32768)%Q)
  /\ (Qabs v <= Qabs s)%Q.
Proof.
  intros Hlo Hhi. cbv zeta. rewrite float32ToInt16_Fin.
  assert (Hc : (-1 <= clamp s)%Q /\ (clamp s <= 1)%Q /\ (clamp s == s)%Q).
  { destruct (clamp_cases s) as [[E _]|[[E H]|[E H]]]; rewrite E.
    - split; [assumption|]. split; [assumption|]. reflexivity.
    - split; [discriminate|]. split; [discriminate|]. apply Qle_antisym; assumption.
    - split; [discriminate|]. split; [discriminate|]. apply Qle_antisym; assumption. }
  destruct Hc as (Hclo & Hchi & Heq).
  destruct (Qtrunc_scale_bounds (clamp s) Hclo Hchi) as (Hr & Hpos & Hneg).
  rewrite (toInt16_small _ Hr).
  set (v := Qtrunc (scale (clamp s))) in *.
  destruct (clamp s) as [n d]. destruct s as [p e].
  cbn [Qnum Qden] in Hpos, Hneg.
  Q_to_Z_hyps.
  pose proof (Pos2Z.is_pos d) as HD. pose proof (Pos2Z.is_pos e) as HE.
  destruct (scaled_bounds_transfer n (Z.pos d) p (Z.pos e) v 32767 HD HE Heq)
    as [Tpos _].
  destruct (scaled_bounds_transfer n (Z.pos d) p (Z.pos e) v 32768 HD HE Heq)
    as [_ Tneg].
  assert (Hsign : (n < 0 -> p < 0) /\ (0 <= n -> 0 <= p)) by nia.
  assert (Hcases : (p < 0 /\ Z.pos e * v - Z.pos e < 32768 * p <= Z.pos e * v)
                   \/ (0 <= p /\ Z.pos e * v <= 32767 * p < Z.pos e * v + Z.pos e)).
  { destruct (Z_lt_le_dec n 0) as [Hn|Hn]; [left|right]; split;
      try (apply Hsign; exact Hn); auto. }
  clearbody v. clear Hpos Hneg Tpos Tneg Hsign Heq Hclo Hchi HD n d.
  split; [|split].
  - apply Qabs_Qlt_condition. Q_to_Z. rewrite Pos2Z.inj_mul.
    destruct Hcases as [[Hp H]|[Hp H]]; nia.
  - intros Hs. unfold Qle in Hs. cbn [Qnum Qden] in Hs.
    apply Qabs_Qlt_condition. Q_to_Z. rewrite Pos2Z.inj_mul.
    destruct Hcases as [[Hp H]|[Hp H]]; [nia|].
    assert (Hp0 : p = 0) by lia. subst p.
    assert (Hv : v = 0) by nia. subst v. lia.
  - unfold Qabs, Qle. cbn [Qnum Qden].
    destruct Hcases as [[Hp H]|[Hp H]].
    + assert (Hv : v <= 0) by nia.
      rewrite (Z.abs_neq v), (Z.abs_neq p) by lia. nia.
    + assert (Hv : 0 <= v) by nia.
      rewrite (Z.abs_eq v), (Z.abs_eq p) by lia. nia.
Qed.

Lemma int16_buffer_length (a : list Z) :
  length (int16_buffer a) = (2 * length a)%nat.
Proof.
  unfold int16_buffer. induction a as [|v a IH]; cbn [flat_map length];
    [reflexivity|].
  rewrite length_app, IH. cbn [int16_bytes length]. lia.
Qed.

Lemma float32ToInt16_truncates (x : Q) :
  float32ToInt16 (Fin x) = Qtrunc (scale (clamp x)).
Proof.
  rewrite float32ToInt16_Fin. apply toInt16_small.
  destruct (clamp_cases x) as [[E [H1 H2]]|[[E H]|[E H]]]; rewrite E.
  - apply (Qtrunc_scale_bounds x H1 H2).
  - vm_compute. split; discriminate.
  - vm_compute. split; discriminate.
Qed.

(** C9.  A frame of [n] samples is encoded into a PCM chunk of exactly
    [2 * n] bytes, an even number, for every [n], zero included; the
    chunk is what the base64 text sent to the transport decodes to. *)
Theorem float32ToPCM_length (float32Array : list float) :
  length (float32ToPCM float32Array) = (2 * length float32Array)%nat
  /\ Nat.even (length (float32ToPCM float32Array)) = true
  /\ base64ToUint8Array (float32ToB64PCM float32Array)
     = Some (float32ToPCM float32Array).
Proof.
  assert (H : length (float32ToPCM float32Array)
              = (2 * length float32Array)%nat).
  { unfold float32ToPCM. rewrite int16_buffer_length, length_map. reflexivity. }
  split; [exact H|]. split.
  - rewrite H. apply Nat.even_spec. exists (length float32Array). reflexivity.
  - apply base64_roundtrip.
Qed.

(** C10.  Decoding the base64 text of a byte array gives the byte array
    back: the framing of the chunks is lossless. *)
Theorem base64ToUint8Array_uint8ArrayToBase64 (bytes : Uint8Array) :
  base64ToUint8Array (uint8ArrayToBase64 bytes) = Some bytes.
Proof. exact (base64_roundtrip bytes). Qed.

(** C3, as the code has it.  For a sample [s] in [-1,1] the value decoded
    from the chunk encoded from [s] is less than 2/32768 away from [s],
    and less than 1/32768 away when [s] is not positive; it is never
    larger in magnitude than [s]. *)
Theorem roundtrip_sample_error (s : Q) :
  (-1 <= s)%Q -> (s <= 1)%Q ->
  exists v : Q,
    roundtrip_sample (Fin s) = Some [[v]]
    /\ (Qabs (v - s) < 2 # 32768)%Q
    /\ ((s <= 0)%Q -> (Qabs (v - s) < 1 # 32768)%Q)
    /\ (Qabs v <= Qabs s)%Q.
Proof.
  intros Hlo Hhi. exists (float32ToInt16 (Fin s) # 32768)%Q.
  split; [apply roundtrip_sample_value|].
  destruct (sample_error s Hlo Hhi) as (H1 & H2 & H3).
  split; [|split; assumption].
  eapply Qlt_le_trans; [exact H1|]. discriminate.
Qed.

Lemma roundtrip_sample_error_witness :
  (-1 <= 1 # 2)%Q /\ (1 # 2 <= 1)%Q
  /\ exists v : Q,
       roundtrip_sample (Fin (1 # 2)) = Some [[v]]
       /\ (Qabs (v - (1 # 2)) < 2 # 32768)%Q
       /\ ((1 # 2 <= 0)%Q -> (Qabs (v - (1 # 2)) < 1 # 32768)%Q)
       /\ (Qabs v <= Qabs (1 # 2))%Q.
Proof.
  split; [discriminate|]. split; [discriminate|].
  apply (roundtrip_sample_error (1 # 2)); discriminate.
Defined.

(** C3 fails as stated: the sample 65535/65536, a 32-bit float, is encoded
    as 32766 and decoded as 32766/32768, which is 3/65536 away from it,
    more than 1/32768. *)
Lemma roundtrip_sample_exceeds_one_step :
  is_binary32 (65535 # 65536) = true
  /\ (-1 <= 65535 # 65536)%Q /\ (65535 # 65536 <= 1)%Q
  /\ roundtrip_sample (Fin (65535 # 65536)) = Some [[32766 # 32768]]%Q
  /\ ~ (Qabs ((32766 # 32768) - (65535 # 65536)) <= 1 # 32768)%Q.
Proof.
  split; [vm_compute; reflexivity|].
  split; [discriminate|]. split; [discriminate|]. split.
  - vm_compute. reflexivity.
  - intros H. vm_compute in H. apply H. reflexivity.
Qed.

(** C4, as the code has it.  Every finite sample is clamped to [-1,1],
    scaled by 32768 when negative and by 32767 otherwise, truncated toward
    zero, and stored as two bytes, low byte first; so 2.0 is encoded as
    1.0 and -5.0 as -1.0. *)
Theorem float32ToPCM_truncating (samples : list Q) :
  float32ToPCM (map Fin samples) = encode_truncating samples
  /\ (forall v : Z, getUint16 0 (int16_bytes v) = v mod 65536)
  /\ float32ToB64PCM [Fin 2] = float32ToB64PCM [Fin 1]
  /\ float32ToB64PCM [Fin (-5)] = float32ToB64PCM [Fin (-1)].
Proof.
  split; [|split; [|split]].
  - unfold float32ToPCM, encode_truncating. f_equal. rewrite map_map.
    apply map_ext. intros x. apply float32ToInt16_truncates.
  - intros v. unfold getUint16, int16_bytes. cbn [skipn].
    rewrite !byte_to_of_Z. lia.
  - vm_compute. reflexivity.
  - vm_compute. reflexivity.
Qed.

(** C4 fails as stated: the sample 1/16384 is scaled to 32767/16384, about
    1.99994; the nearest integer is 2, and the code stores 1. *)
Lemma float32ToPCM_does_not_round :
  is_binary32 (1 # 16384) = true
  /\ float32ToPCM [Fin (1 # 16384)] = [x01; x00]
  /\ encode_rounding [1 # 16384] = [x02; x00]
  /\ float32ToPCM [Fin (1 # 16384)] <> encode_rounding [1 # 16384].
Proof.
  split; [vm_compute; reflexivity|].
  split; [vm_compute; reflexivity|]. split; [vm_compute; reflexivity|].
  vm_compute. discriminate.
Qed.

(* ------------------------------------------------------------------ *)
(** * The WAV container *)

Lemma write_at_whole (bs : list byte) (x : byte) :
  write_at 0 bs (repeat x (length bs)) = bs.
Proof.
  induction bs as [|b bs IH]; cbn [length repeat write_at]; [reflexivity|].
  rewrite IH. reflexivity.
Qed.

Lemma write_at_nothing (offset : nat) (buffer : list byte) :
  write_at offset [] buffer = buffer.
Proof.
  revert offset. induction buffer as [|x buffer IH]; intros [|offset];
    cbn [write_at]; try reflexivity.
  rewrite IH. reflexivity.
Qed.

Lemma binary64_round_small (z : Z) :
  Z.abs z < 2 ^ 53 -> binary64_round z = Some z.
Proof.
  intros H. unfold binary64_round.
  destruct (Z.ltb_spec (Z.abs z) (2 ^ 53)) as [_|Hge]; [reflexivity|].
  exfalso. apply (Z.lt_irrefl (2 ^ 53)).
  eapply Z.le_lt_trans; eassumption.
Qed.

(** The sequence of writes of [pcmToWav] builds the header and copies
    the samples behind it. *)
Lemma pcmToWav_layout (pcmData : Uint8Array) (sampleRate numChannels : Z) :
  pcmToWav pcmData sampleRate numChannels
  = wav_header (Z.of_nat (length pcmData)) sampleRate numChannels ++ pcmData.
Proof.
  unfold pcmToWav, wav_header, headerLength, writeString, setUint32, setUint16.
  set (n := Z.of_nat (length pcmData)).
  cbn [Nat.add repeat].
  cbn [write_at list_ascii_of_string map app].
  rewrite write_at_nothing, write_at_whole.
  replace (16 mod 4294967296) with 16 by reflexivity.
  replace (1 mod 65536) with 1 by reflexivity.
  replace (16 mod 65536) with 16 by reflexivity.
  reflexivity.
Qed.

Lemma getUint16_bytes (u : Z) (rest : list byte) :
  0 <= u < 65536 ->
  getUint16 0 (byte_of_Z u :: byte_of_Z (u / 256) :: rest) = u.
Proof.
  intros H. unfold getUint16. cbn [skipn]. rewrite !byte_to_of_Z. lia.
Qed.

Lemma getUint32_bytes (u : Z) (rest : list byte) :
  0 <= u < 4294967296 ->
  getUint32 0 (byte_of_Z u :: byte_of_Z (u / 256) :: byte_of_Z (u / 65536)
                 :: byte_of_Z (u / 16777216) :: rest) = u.
Proof.
  intros H. unfold getUint32. cbn [skipn]. rewrite !byte_to_of_Z. lia.
Qed.

Lemma getUint16_skip (k : nat) (buffer : list byte) :
  getUint16 k buffer = getUint16 0 (skipn k buffer).
Proof. reflexivity. Qed.

Lemma getUint32_skip (k : nat) (buffer : list byte) :
  getUint32 k buffer = getUint32 0 (skipn k buffer).
Proof. reflexivity. Qed.

Ltac header_field :=
  first
    [ rewrite getUint32_skip; cbn [skipn]; apply getUint32_bytes; lia
    | rewrite getUint16_skip; cbn [skipn]; apply getUint16_bytes; lia
    | cbn [length]; lia
    | reflexivity ].

(** C5, as the code has it.  For every chunk, the empty one included, the
    container is the chunk behind a 44-byte header, [44 + len] bytes in
    all, whose header declares format tag 1 and 16 bits per sample; and
    when the values fit the fields of the header, it declares the channel
    count, the sample rate, the byte rate [sampleRate * channels * 2], the
    block align [channels * 2], and the sizes [36 + len] and [len]. *)
Theorem pcmToWav_header (pcmData : Uint8Array) (sampleRate numChannels : Z) :
  let wav := pcmToWav pcmData sampleRate numChannels in
  let len := Z.of_nat (length pcmData) in
  length wav = (44 + length pcmData)%nat
  /\ skipn 44 wav = pcmData
  /\ getString 0 4 wav = "RIFF"%string
  /\ getString 8 4 wav = "WAVE"%string
  /\ getString 12 4 wav = "fmt "%string
  /\ getUint32 16 wav = 16
  /\ getUint16 20 wav = 1
  /\ getUint16 34 wav = 16
  /\ getString 36 4 wav = "data"%string
  /\ (fits_header len sampleRate numChannels ->
      getUint32 4 wav = 36 + len
      /\ getUint16 22 wav = numChannels
      /\ getUint32 24 wav = sampleRate
      /\ getUint32 28 wav = sampleRate * numChannels * 2
      /\ getUint16 32 wav = numChannels * 2
      /\ getUint32 40 wav = len).
Proof.
  cbv zeta. rewrite pcmToWav_layout.
  pose proof (Nat2Z.is_nonneg (length pcmData)) as Hn.
  set (n := Z.of_nat (length pcmData)) in *.
  unfold wav_header. cbn [list_ascii_of_string map app].
  repeat match goal with |- _ /\ _ => split end; try header_field.
  intros (Hc0 & Hc1 & Hr & Hbr & Hlen).
  assert (Hbr0 : 0 <= sampleRate * numChannels * 2)
    by (apply Z.mul_nonneg_nonneg; [apply Z.mul_nonneg_nonneg|]; lia).
  assert (Hp : 0 <= sampleRate * numChannels)
    by (apply Z.mul_nonneg_nonneg; lia).
  assert (Hbig : 4294967296 < 2 ^ 53) by reflexivity.
  cbn [js_add js_mul].
  rewrite (binary64_round_small (36 + n)),
    (binary64_round_small (sampleRate * numChannels)),
    (binary64_round_small (numChannels * 2))
    by (clear - Hc0 Hc1 Hr Hbr Hlen Hn Hbr0 Hp Hbig; lia).
  cbn [js_mul].
  rewrite (binary64_round_small (sampleRate * numChannels * 2))
    by (clear - Hc0 Hc1 Hr Hbr Hlen Hn Hbr0 Hp Hbig; lia).
  cbn [to_integer].
  rewrite (Z.mod_small (36 + n)), (Z.mod_small n), (Z.mod_small numChannels),
    (Z.mod_small sampleRate), (Z.mod_small (sampleRate * numChannels * 2)),
    (Z.mod_small (numChannels * 2)) by (clear - Hc0 Hc1 Hr Hbr Hlen Hn Hbr0; lia).
  repeat match goal with |- _ /\ _ => split end; header_field.
Qed.

Lemma pcmToWav_header_witness :
  fits_header 0 24000 1
  /\ getUint32 4 (pcmToWav [] 24000 1) = 36
  /\ getUint16 22 (pcmToWav [] 24000 1) = 1
  /\ getUint32 24 (pcmToWav [] 24000 1) = 24000
  /\ getUint32 28 (pcmToWav [] 24000 1) = 48000
  /\ getUint16 32 (pcmToWav [] 24000 1) = 2
  /\ getUint32 40 (pcmToWav [] 24000 1) = 0.
Proof.
  assert (H : fits_header 0 24000 1) by (unfold fits_header; lia).
  split; [exact H|].
  exact (proj2 (proj2 (proj2 (proj2 (proj2 (proj2 (proj2 (proj2 (proj2
           (pcmToWav_header [] 24000 1))))))))) H).
Defined.

(** C5 fails as stated: with 65536 channels the header declares 0
    channels and a block align of 0, the fields being 16 bits wide. *)
Lemma pcmToWav_header_wraps :
  getUint16 22 (pcmToWav [] 24000 65536) = 0
  /\ getUint16 22 (pcmToWav [] 24000 65536) <> 65536
  /\ getUint16 32 (pcmToWav [] 24000 65536) = 0
  /\ getUint16 32 (pcmToWav [] 24000 65536) <> 65536 * 2.
Proof.
  split; [vm_compute; reflexivity|]. split; [vm_compute; discriminate|].
  split; [vm_compute; reflexivity|]. vm_compute. discriminate.
Qed.

(* ------------------------------------------------------------------ *)
(** * Error texts *)

Lemma prefix_app (p s : string) :
  prefix p s = true <-> exists rest : string, s = (p ++ rest)%string.
Proof.
  revert s. induction p as [|a p IH]; intros s.
  - destruct s; cbn; split; intros _; try reflexivity; eexists; reflexivity.
  - destruct s as [|b s]; cbn [prefix String.append].
    + split; [discriminate|]. intros [rest H]. discriminate.
    + destruct (ascii_dec a b) as [->|Hab].
      * rewrite IH. split; intros [rest H]; exists rest; congruence.
      * split; [discriminate|]. intros [rest H]. congruence.
Qed.

(** [includes] finds exactly the texts that contain the needle. *)
Lemma includes_contains (text needle : string) :
  includes text needle = true <-> contains text needle.
Proof.
  unfold contains. induction text as [|c text IH]; cbn [includes].
  - rewrite orb_false_r, prefix_app. split.
    + intros [rest H]. exists ""%string, rest. exact H.
    + intros [[|b before] [after H]]; [exists after; exact H|discriminate].
  - rewrite orb_true_iff, prefix_app, IH. split.
    + intros [[rest H]|[before [after H]]].
      * exists ""%string, rest. exact H.
      * exists (String c before), after. cbn [String.append]. congruence.
    + intros [[|b before] [after H]].
      * left. exists after. exact H.
      * right. exists before, after. cbn [String.append] in H. congruence.
Qed.

(** C6, as the code has it.  An error text is classified as rate limited
    exactly when it contains "429", "quota" or "Resource has been
    exhausted"; every other text is a generic transport error. *)
Theorem classify_rate_limited (text : string) :
  (classify text = TransportRateLimited
   <-> contains text "429" \/ contains text "quota"
       \/ contains text "Resource has been exhausted")
  /\ (classify text = TransportError
      <-> ~ (contains text "429" \/ contains text "quota"
             \/ contains text "Resource has been exhausted")).
Proof.
  rewrite <- !includes_contains. unfold classify.
  destruct (includes text "429"), (includes text "quota"),
    (includes text "Resource has been exhausted"); cbn [orb];
    (split; split; try discriminate; try reflexivity; intuition discriminate).
Qed.

(** C6 fails as stated: the text "Resource has been exhausted" contains
    neither "429" nor "quota", and is classified as rate limited. *)
Lemma classify_resource_exhausted :
  classify "Resource has been exhausted" = TransportRateLimited
  /\ ~ contains "Resource has been exhausted" "429"
  /\ ~ contains "Resource has been exhausted" "quota".
Proof.
  split; [reflexivity|].
  rewrite <- !includes_contains. split; vm_compute; discriminate.
Qed.

(* ------------------------------------------------------------------ *)
(** * LiveSession: teardown *)

Module LiveFacts.
Import Live.

(** Evaluation of the handlers on a session given by its fields. *)
Ltac session_simpl :=
  cbv [cleanup interrupt schedule onended stopActiveSources
       setIsRecording setStatus showNotification set_mediaStreamRef
       set_inputSourceRef set_processorRef set_sessionPromiseRef
       set_nextStartTimeRef set_activeSourcesRef set_nextSource call
       isRecording status notification mediaStreamRef inputSourceRef
       processorRef sessionPromiseRef nextStartTimeRef activeSourcesRef
       nextSource calls].

Lemma calls_cleanup (s : Session) :
  calls (cleanup s) = calls s ++ releases s.
Proof.
  unfold releases.
  destruct s as [r st n ms i p h t a k c]; session_simpl.
  destruct ms as [tracks|], p as [p|], i as [i|]; session_simpl;
    rewrite <- ?app_assoc, ?app_nil_r; reflexivity.
Qed.

Lemma cleanup_idle (s : Session) : idle (cleanup s).
Proof.
  unfold idle.
  destruct s as [r st n ms i p h t a k c]; session_simpl.
  destruct ms as [tracks|], p as [p|], i as [i|]; session_simpl; repeat split.
Qed.

Lemma idle_cleanup (s : Session) : idle s -> cleanup s = s.
Proof.
  destruct s as [r st n ms i p h t a k c].
  unfold idle. cbn. intros (-> & -> & -> & -> & -> & -> & ->).
  session_simpl. cbn [map]. rewrite app_nil_r. reflexivity.
Qed.

Lemma count_call_app (c : Call) (l1 l2 : list Call) :
  count_call c (l1 ++ l2) = (count_call c l1 + count_call c l2)%nat.
Proof. unfold count_call. rewrite filter_app, length_app. reflexivity. Qed.

Lemma is_call_release (c d : Call) :
  is_release c -> (is_call c d = true <-> d = c).
Proof.
  destruct c, d; cbn; intros H; try contradiction;
    try (split; [discriminate|intros E; discriminate E]);
    rewrite Nat.eqb_eq; split; congruence.
Qed.

Lemma count_call_absent (c : Call) (l : list Call) :
  is_release c -> ~ In c l -> count_call c l = 0%nat.
Proof.
  intros Hc Hn. unfold count_call.
  induction l as [|x l IH]; cbn [filter]; [reflexivity|].
  destruct (is_call c x) eqn:E.
  - apply (is_call_release c x Hc) in E. subst x. exfalso. apply Hn. left. reflexivity.
  - apply IH. intros H. apply Hn. right. exact H.
Qed.

Lemma count_call_once (c : Call) (l : list Call) :
  is_release c -> NoDup l -> In c l -> count_call c l = 1%nat.
Proof.
  intros Hc Hnd. induction Hnd as [|x l Hx Hnd IH]; intros Hin; [contradiction|].
  change (x :: l) with ([x] ++ l). rewrite count_call_app.
  destruct Hin as [->|Hin].
  - rewrite (count_call_absent c l Hc Hx).
    unfold count_call. cbn [filter].
    rewrite (proj2 (is_call_release c c Hc) eq_refl). reflexivity.
  - rewrite (IH Hin). unfold count_call. cbn [filter].
    destruct (is_call c x) eqn:E; [|reflexivity].
    apply (is_call_release c x Hc) in E. subst x. contradiction.
Qed.

Lemma NoDup_map_injective {A B : Type} (f : A -> B) (l : list A) :
  (forall x y, f x = f y -> x = y) -> NoDup l -> NoDup (map f l).
Proof.
  intros Hf. induction 1 as [|x l Hx _ IH]; cbn [map]; constructor; [|exact IH].
  rewrite in_map_iff. intros (y & E & Hy). apply Hf in E. subst y. contradiction.
Qed.

(** A stream has each of its tracks once, and the active set each of its
    sources once. *)
Lemma releases_NoDup (s : Session) :
  NoDup (activeSourcesRef s) ->
  (forall tracks, mediaStreamRef s = Some tracks -> NoDup tracks) ->
  NoDup (releases s).
Proof.
  intros Ha Ht. unfold releases.
  apply NoDup_app.
  - apply NoDup_map_injective; [congruence|exact Ha].
  - apply NoDup_app.
    + destruct (mediaStreamRef s) as [tracks|]; [|constructor].
      apply NoDup_map_injective; [congruence|]. apply Ht. reflexivity.
    + apply NoDup_app.
      * destruct (processorRef s); repeat constructor. intros [].
      * destruct (inputSourceRef s); repeat constructor. intros [].
      * intros c H1 H2. destruct (processorRef s); [|contradiction].
        destruct H1 as [<-|[]]. destruct (inputSourceRef s); [|contradiction].
        destruct H2 as [E|[]]. discriminate.
    + intros c H1 H2.
      destruct (mediaStreamRef s) as [tracks|]; [|contradiction].
      apply in_map_iff in H1. destruct H1 as (t & <- & _).
      apply in_app_or in H2.
      destruct (processorRef s), (inputSourceRef s);
        cbn in H2; intuition discriminate.
  - intros c H1 H2. apply in_map_iff in H1. destruct H1 as (a & <- & _).
    apply in_app_or in H2. destruct H2 as [H2|H2].
    + destruct (mediaStreamRef s) as [tracks|]; [|contradiction].
      apply in_map_iff in H2. destruct H2 as (t & E & _). discriminate.
    + apply in_app_or in H2.
      destruct (processorRef s), (inputSourceRef s);
        cbn in H2; intuition discriminate.
Qed.

Lemma releases_are_releases (s : Session) (c : Call) :
  In c (releases s) -> is_release c.
Proof.
  unfold releases. intros H.
  repeat (apply in_app_or in H; destruct H as [H|H]).
  - apply in_map_iff in H. destruct H as (a & <- & _). exact I.
  - destruct (mediaStreamRef s); [|contradiction].
    apply in_map_iff in H. destruct H as (a & <- & _). exact I.
  - destruct (processorRef s); [|contradiction]. destruct H as [<-|[]]. exact I.
  - destruct (inputSourceRef s); [|contradiction]. destruct H as [<-|[]]. exact I.
Qed.

(** C8.  Teardown from Idle changes nothing and makes no call.  Teardown
    twice ends in the state of teardown once, an Idle state with the
    session handle dropped; and from a Streaming state, after the two
    teardowns each release (a stop of an active source or of a track of
    the stream, the disconnection of the processor and of the input
    source) has been made exactly once. *)
Theorem cleanup_idempotent (s : Session) :
  (idle s -> cleanup s = s)
  /\ cleanup (cleanup s) = cleanup s
  /\ idle (cleanup s)
  /\ sessionPromiseRef (cleanup s) = None
  /\ calls (cleanup (cleanup s)) = calls s ++ releases s
  /\ (streaming s ->
      NoDup (activeSourcesRef s) ->
      (forall tracks, mediaStreamRef s = Some tracks -> NoDup tracks) ->
      (exists tracks p i,
          mediaStreamRef s = Some tracks /\ processorRef s = Some p
          /\ inputSourceRef s = Some i
          /\ releases s = map SourceStop (activeSourcesRef s)
                          ++ map TrackStop tracks
                          ++ [ProcessorDisconnect p; InputDisconnect i])
      /\ forall c, In c (releases s) ->
           count_call c (calls (cleanup (cleanup s)))
           = S (count_call c (calls s))).
Proof.
  pose proof (idle_cleanup (cleanup s) (cleanup_idle s)) as Htwice.
  split; [apply idle_cleanup|]. split; [exact Htwice|].
  split; [apply cleanup_idle|].
  split; [apply (cleanup_idle s)|].
  split; [rewrite Htwice; apply calls_cleanup|].
  intros (_ & Hm & Hi & Hp & _) Ha Ht. split.
  - unfold releases.
    destruct (mediaStreamRef s) as [tracks|]; [|congruence].
    destruct (processorRef s) as [p|]; [|congruence].
    destruct (inputSourceRef s) as [i|]; [|congruence].
    exists tracks, p, i. repeat split.
  - intros c Hc. rewrite Htwice, calls_cleanup, count_call_app.
    rewrite (count_call_once c (releases s)
               (releases_are_releases s c Hc) (releases_NoDup s Ha Ht) Hc).
    lia.
Qed.

Lemma cleanup_idempotent_witness :
  streaming streaming_session
  /\ NoDup (activeSourcesRef streaming_session)
  /\ forall c, In c (releases streaming_session) ->
       count_call c (calls (cleanup (cleanup streaming_session)))
       = S (count_call c (calls streaming_session)).
Proof.
  assert (Hs : streaming streaming_session)
    by (unfold streaming; cbn; repeat split; discriminate).
  assert (Ha : NoDup (activeSourcesRef streaming_session))
    by (cbn; repeat constructor; cbn; intuition lia).
  assert (Ht : forall tracks, mediaStreamRef streaming_session = Some tracks ->
                              NoDup tracks).
  { cbn. intros tracks E. injection E as <-. repeat constructor. intros []. }
  split; [exact Hs|]. split; [exact Ha|].
  destruct (cleanup_idempotent streaming_session) as (_ & _ & _ & _ & _ & H).
  exact (proj2 (H Hs Ha Ht)).
Defined.

(* ------------------------------------------------------------------ *)
(** * LiveSession: interruption and scheduling *)

Lemma set_add_NoDup (x : nat) (l : list nat) : NoDup l -> NoDup (set_add x l).
Proof.
  intros H. unfold set_add. destruct (existsb (Nat.eqb x) l) eqn:E; [exact H|].
  apply NoDup_app; [exact H|repeat constructor; intros []|].
  intros a Ha [<-|[]].
  assert (Ht : existsb (Nat.eqb x) l = true)
    by (apply existsb_exists; exists x; split; [exact Ha|apply Nat.eqb_refl]).
  congruence.
Qed.

Lemma set_delete_NoDup (x : nat) (l : list nat) :
  NoDup l -> NoDup (set_delete x l).
Proof. apply NoDup_filter. Qed.

Lemma startTimes_app (l1 l2 : list Call) :
  startTimes (l1 ++ l2) = startTimes l1 ++ startTimes l2.
Proof.
  induction l1 as [|c l1 IH]; [reflexivity|].
  destruct c; cbn [app startTimes]; rewrite IH; reflexivity.
Qed.

Lemma interrupt_effect (now : Q) (s : Session) :
  activeSourcesRef (interrupt now s) = []
  /\ nextStartTimeRef (interrupt now s) = now
  /\ calls (interrupt now s) = calls s ++ map SourceStop (activeSourcesRef s).
Proof. destruct s; session_simpl. repeat split. Qed.

Lemma schedule_effect (now : Q) (b : AudioBuffer) (s : Session) :
  let start := Qmax (nextStartTimeRef s) now in
  calls (schedule now b s)
  = calls s ++ [SourceConnect (nextSource s); SourceStart (nextSource s) start]
  /\ nextStartTimeRef (schedule now b s) = (start + duration b)%Q
  /\ activeSourcesRef (schedule now b s)
     = set_add (nextSource s) (activeSourcesRef s)
  /\ nextSource (schedule now b s) = S (nextSource s).
Proof.
  destruct s; session_simpl. rewrite <- app_assoc. repeat split.
Qed.

Lemma pcmToAudioBuffer_shape (data : Uint8Array) (rate channels : Z)
      (b : AudioBuffer) :
  pcmToAudioBuffer data rate channels = Some b ->
  buf_length b = Z.of_nat (length (int16_view data)) / channels
  /\ 1 <= buf_length b
  /\ buf_sampleRate b = rate /\ 8000 <= rate <= 96000
  /\ numberOfChannels b = channels.
Proof.
  unfold pcmToAudioBuffer, createBuffer.
  destruct ((1 <=? channels) && (channels <=? 32)
            && (1 <=? Z.of_nat (length (int16_view data)) / channels)
            && (8000 <=? rate) && (rate <=? 96000)) eqn:E; [|discriminate].
  intros H. injection H as <-. cbn.
  repeat (apply andb_true_iff in E; destruct E as [E ?]).
  repeat split; lia.
Qed.

Lemma decodeChunk_duration (data : string) (b : AudioBuffer) :
  decodeChunk data = Some b ->
  (duration b == buf_length b # 24000)%Q /\ (0 < duration b)%Q.
Proof.
  unfold decodeChunk. destruct (base64ToUint8Array data) as [pcm|]; [|discriminate].
  intros H. apply pcmToAudioBuffer_shape in H.
  destruct H as (_ & Hl & Hr & _ & _). unfold duration. rewrite Hr.
  split; [reflexivity|]. unfold Qlt. cbn. lia.
Qed.



Lemma Qle_plus_nonneg (t d : Q) : (0 < d)%Q -> (t <= t + d)%Q.
Proof.
  intros H. rewrite <- (Qplus_0_r t) at 1.
  apply Qplus_le_compat; [apply Qle_refl|apply Qlt_le_weak, H].
Qed.

(** C2.  The interruption stops every active source, leaves the active
    set empty and sets the cursor to the current time of the clock; a
    message that only signals an interruption does exactly that. *)
Theorem interrupt_clears (now : Q) (s : Session) :
  let s' := interrupt now s in
  activeSourcesRef s' = []
  /\ nextStartTimeRef s' = now
  /\ calls s' = calls s ++ map SourceStop (activeSourcesRef s)
  /\ Forall (fun a => In (SourceStop a) (calls s')) (activeSourcesRef s)
  /\ onmessage now interruptionMessage s = (s', Returned).
Proof.
  cbv zeta. destruct (interrupt_effect now s) as (Ha & Ht & Hc).
  repeat split; try assumption.
  apply Forall_forall. intros a Hin. rewrite Hc.
  apply in_or_app. right. apply in_map. exact Hin.
Qed.



(** In every run from the mounted component the active set holds each
    source once. *)
Lemma cleanup_active (s : Session) : activeSourcesRef (cleanup s) = [].
Proof. apply (cleanup_idle s). Qed.

Lemma handle_NoDup (s : Session) (ev : Event) :
  NoDup (activeSourcesRef s) -> NoDup (activeSourcesRef (handle s ev)).
Proof.
  intros H. destruct ev as [src p|now m| a | |e| ]; cbn [handle].
  - destruct s; exact H.
  - assert (Hi : NoDup (activeSourcesRef
                          (if interrupted m then interrupt now s else s))).
    { destruct (interrupted m); [|exact H].
      rewrite (proj1 (interrupt_effect now s)). constructor. }
    unfold onmessage.
    destruct (inlineData m) as [d|]; [|exact Hi].
    destruct (String.eqb d ""); [exact Hi|].
    destruct (base64ToUint8Array d) as [pcm|]; [|exact Hi].
    destruct (pcmToAudioBuffer pcm 24000 1) as [b|]; [|exact Hi].
    cbn [fst].
    destruct (schedule_effect now b (if interrupted m then interrupt now s else s))
      as (_ & _ & A & _).
    rewrite A. apply set_add_NoDup, Hi.
  - destruct s; session_simpl. apply set_delete_NoDup, H.
  - unfold onclose. rewrite cleanup_active. constructor.
  - unfold onerror. rewrite cleanup_active. constructor.
  - rewrite cleanup_active. constructor.
Qed.

Lemma run_NoDup (evs : list Event) :
  NoDup (activeSourcesRef (run initial evs)).
Proof.
  unfold run.
  assert (H : NoDup (activeSourcesRef initial)) by constructor.
  revert H. generalize initial. induction evs as [|ev evs IH]; intros s H.
  - exact H.
  - cbn [fold_left]. apply IH, handle_NoDup, H.
Qed.

(* ------------------------------------------------------------------ *)
(** * LiveSession: chunks of odd length *)





End LiveFacts.

(* ------------------------------------------------------------------ *)
(** * The PCM codec: whole frames, saturation, order *)

(** Lists taken two elements at a time. *)
Lemma list_ind2 {A : Type} (P : list A -> Prop) :
  P [] -> (forall a, P [a]) ->
  (forall a b l, P l -> P (a :: b :: l)) ->
  forall l, P l.
Proof.
  intros H0 H1 H2. fix IH 1.
  intros [|a [|b l]]; [apply H0 | apply H1 | apply H2, IH].
Qed.

Lemma int16_view_length (data : Uint8Array) :
  Z.of_nat (length (int16_view data)) = Z.of_nat (length data) / 2.
Proof.
  induction data as [| a | a b l IH] using list_ind2; try reflexivity.
  cbn [int16_view length]. lia.
Qed.

Lemma signed16_range (lo hi : byte) :
  -32768 <= signed16 (byte_to_Z lo + 256 * byte_to_Z hi) <= 32767.
Proof.
  pose proof (byte_to_Z_range lo). pose proof (byte_to_Z_range hi).
  unfold signed16.
  destruct (Z.ltb_spec (byte_to_Z lo + 256 * byte_to_Z hi) 32768); lia.
Qed.

Lemma int16_view_range (data : Uint8Array) :
  Forall (fun v => -32768 <= v <= 32767) (int16_view data).
Proof.
  induction data as [| a | a b l IH] using list_ind2; cbn [int16_view];
    try constructor; [apply signed16_range | exact IH].
Qed.

Lemma map_nth_seq {A B : Type} (f : A -> B) (d : A) (l : list A) :
  map (fun k => f (nth k l d)) (seq 0 (length l)) = map f l.
Proof.
  induction l as [|x l IH]; [reflexivity|].
  cbn [length seq map nth]. f_equal.
  rewrite <- seq_shift, map_map. exact IH.
Qed.

(** The samples of the only channel of a mono buffer. *)
Lemma mono_channel (a : list Z) :
  map (fun i => nth (Z.to_nat (i * 1 + 0)) a 0 # 32768)
      (range (Z.of_nat (length a) / 1))
  = map int16ToFloat a.
Proof.
  unfold range. rewrite Z.div_1_r, Nat2Z.id, map_map.
  rewrite <- (map_nth_seq int16ToFloat 0 a).
  apply map_ext. intros k. unfold int16ToFloat.
  replace (Z.to_nat (Z.of_nat k * 1 + 0)) with k by lia. reflexivity.
Qed.

Lemma pcmToAudioBuffer_mono (data : Uint8Array) (rate : Z) :
  8000 <= rate <= 96000 ->
  pcmToAudioBuffer data rate 1
  = if Z.of_nat (length data) <? 2 then None
    else Some (mkAudioBuffer 1 (Z.of_nat (length data) / 2) rate
                 [map int16ToFloat (int16_view data)]).
Proof.
  intros Hr. unfold pcmToAudioBuffer, createBuffer.
  rewrite Z.div_1_r, int16_view_length.
  replace (8000 <=? rate) with true by (symmetry; apply Z.leb_le; lia).
  replace (rate <=? 96000) with true by (symmetry; apply Z.leb_le; lia).
  cbn [andb Z.leb Z.compare Pos.compare Pos.compare_cont].
  rewrite !andb_true_r.
  destruct (Z.ltb_spec (Z.of_nat (length data)) 2) as [Hs|Hs].
  - replace (1 <=? Z.of_nat (length data) / 2) with false
      by (symmetry; apply Z.leb_gt; lia).
    reflexivity.
  - replace (1 <=? Z.of_nat (length data) / 2) with true
      by (symmetry; apply Z.leb_le; lia).
    cbn [numberOfChannels buf_length buf_sampleRate].
    f_equal. f_equal. change (range 1) with [0]. cbn [map].
    pose proof (mono_channel (int16_view data)) as M.
    rewrite Z.div_1_r, int16_view_length in M. rewrite M. reflexivity.
Qed.

Lemma int16ToFloat_range (v : Z) :
  -32768 <= v <= 32767 ->
  (-1 <= int16ToFloat v)%Q /\ (int16ToFloat v < 1)%Q.
Proof.
  intros H. unfold int16ToFloat, Qle, Qlt. cbn [Qnum Qden]. lia.
Qed.

(** X1.  Decoding a mono chunk.  A chunk of fewer than two bytes is refused;
    any other chunk of [len] bytes gives [len / 2] frames, the last byte
    of an odd chunk left out, and every decoded sample lies in [-1, 1). *)
Theorem pcmToAudioBuffer_mono_shape (data : Uint8Array) (rate : Z) :
  8000 <= rate <= 96000 ->
  (pcmToAudioBuffer data rate 1 = None <-> (length data < 2)%nat)
  /\ forall b : AudioBuffer,
       pcmToAudioBuffer data rate 1 = Some b ->
       numberOfChannels b = 1
       /\ buf_sampleRate b = rate
       /\ buf_length b = Z.of_nat (length data) / 2
       /\ channelData b = [map int16ToFloat (int16_view data)]
       /\ Z.of_nat (length (map int16ToFloat (int16_view data)))
          = buf_length b
       /\ Forall (fun v => (-1 <= v)%Q /\ (v < 1)%Q)
                 (map int16ToFloat (int16_view data)).
Proof.
  intros Hr. rewrite (pcmToAudioBuffer_mono data rate Hr).
  destruct (Z.ltb_spec (Z.of_nat (length data)) 2) as [Hs|Hs].
  - split; [split; [lia|reflexivity]|]. intros b Hb. discriminate.
  - split; [split; [discriminate|lia]|].
    intros b Hb. injection Hb as <-.
    cbn [numberOfChannels buf_sampleRate buf_length channelData].
    repeat match goal with |- _ /\ _ => split end; try reflexivity.
    + rewrite length_map. apply int16_view_length.
    + apply Forall_map.
      eapply Forall_impl; [|apply int16_view_range].
      intros v Hv. apply int16ToFloat_range, Hv.
Qed.

Lemma pcmToAudioBuffer_mono_shape_witness :
  8000 <= 24000 <= 96000
  /\ (pcmToAudioBuffer [x01; x02; x03] 24000 1 = None
      <-> (length [x01; x02; x03] < 2)%nat).
Proof.
  split; [lia|].
  apply (pcmToAudioBuffer_mono_shape [x01; x02; x03] 24000). lia.
Defined.

Lemma int16_view_float32ToPCM (samples : list float) :
  int16_view (float32ToPCM samples) = map float32ToInt16 samples.
Proof.
  unfold float32ToPCM. apply int16_view_buffer.
  apply Forall_map, Forall_forall. intros x _. apply float32ToInt16_range.
Qed.

(** X2.  A whole frame through the codec.  A frame of [n >= 1] samples encoded,
    framed in base64, unframed and decoded at any supported rate gives a
    mono buffer of [n] frames whose samples are the 16-bit words over
    32768; an empty frame gives a chunk that the decoder refuses. *)
Theorem frame_roundtrip (samples : list float) (rate : Z) :
  8000 <= rate <= 96000 ->
  base64ToUint8Array (float32ToB64PCM samples) = Some (float32ToPCM samples)
  /\ pcmToAudioBuffer (float32ToPCM samples) rate 1
     = match samples with
       | [] => None
       | _ :: _ =>
           Some (mkAudioBuffer 1 (Z.of_nat (length samples)) rate
                   [map (fun x => int16ToFloat (float32ToInt16 x)) samples])
       end.
Proof.
  intros Hr. split; [apply base64_roundtrip|].
  rewrite (pcmToAudioBuffer_mono _ rate Hr).
  rewrite int16_view_float32ToPCM, map_map.
  assert (Hl : length (float32ToPCM samples) = (2 * length samples)%nat)
    by (unfold float32ToPCM; rewrite int16_buffer_length, length_map; reflexivity).
  rewrite Hl. destruct samples as [|x samples]; [reflexivity|].
  replace (Z.of_nat (2 * length (x :: samples)) <? 2) with false
    by (symmetry; apply Z.ltb_ge; cbn [length]; lia).
  f_equal. f_equal. lia.
Qed.

Lemma frame_roundtrip_witness :
  8000 <= 16000 <= 96000
  /\ pcmToAudioBuffer (float32ToPCM [Fin (1 # 2); NaN]) 16000 1
     = Some (mkAudioBuffer 1 2 16000
               [[int16ToFloat (float32ToInt16 (Fin (1 # 2)));
                 int16ToFloat (float32ToInt16 NaN)]]).
Proof.
  split; [lia|].
  apply (frame_roundtrip [Fin (1 # 2); NaN] 16000). lia.
Defined.

(** X3.  Every sample of a frame within [-1,1] comes back less than 2/32768
    away from what it was. *)
Theorem frame_roundtrip_error (samples : list Q) :
  Forall (fun s => (-1 <= s)%Q /\ (s <= 1)%Q) samples ->
  Forall2 (fun s v => (Qabs (v - s) < 2 # 32768)%Q)
          samples
          (map int16ToFloat (int16_view (float32ToPCM (map Fin samples)))).
Proof.
  intros H. rewrite int16_view_float32ToPCM, !map_map.
  induction H as [|s samples [Hlo Hhi] _ IH]; cbn [map]; constructor;
    [|exact IH].
  destruct (sample_error s Hlo Hhi) as (H1 & _ & _).
  eapply Qlt_le_trans; [exact H1|]. discriminate.
Qed.

Lemma frame_roundtrip_error_witness :
  Forall (fun s => (-1 <= s)%Q /\ (s <= 1)%Q) [1 # 3; -1]%Q
  /\ Forall2 (fun s v => (Qabs (v - s) < 2 # 32768)%Q)
             [1 # 3; -1]%Q
             (map int16ToFloat
                  (int16_view (float32ToPCM (map Fin [1 # 3; -1]%Q)))).
Proof.
  assert (H : Forall (fun s => (-1 <= s)%Q /\ (s <= 1)%Q) [1 # 3; -1]%Q)
    by (repeat constructor; discriminate).
  split; [exact H|]. apply (frame_roundtrip_error _ H).
Defined.

Lemma Qtrunc_floor (q : Q) : 0 <= Qnum q -> Qtrunc q = Qfloor q.
Proof.
  destruct q as [n d]. unfold Qtrunc, Qfloor. cbn [Qnum Qden]. intros H.
  apply Z.quot_div_nonneg; lia.
Qed.

Lemma Qtrunc_ceiling (q : Q) : Qnum q <= 0 -> Qtrunc q = Qceiling q.
Proof.
  destruct q as [n d]. unfold Qtrunc, Qceiling, Qfloor, Qopp.
  cbn [Qnum Qden]. intros H.
  rewrite <- (Z.quot_div_nonneg (- n) (Z.pos d)) by lia.
  rewrite Z.quot_opp_l by lia. lia.
Qed.

Lemma Qtrunc_le (a b : Q) : (a <= b)%Q -> Qtrunc a <= Qtrunc b.
Proof.
  intros H.
  destruct (Z_le_gt_dec 0 (Qnum a)) as [Ha|Ha].
  - assert (Hb : 0 <= Qnum b).
    { destruct a as [n d], b as [m e]. unfold Qle in H. cbn [Qnum Qden] in *. nia. }
    rewrite (Qtrunc_floor a Ha), (Qtrunc_floor b Hb).
    apply Qfloor_resp_le, H.
  - destruct (Z_le_gt_dec (Qnum b) 0) as [Hb|Hb].
    + rewrite (Qtrunc_ceiling a), (Qtrunc_ceiling b) by lia.
      apply Qceiling_resp_le, H.
    + apply Z.le_trans with 0.
      * destruct a as [n d]. unfold Qtrunc. cbn [Qnum Qden] in *.
        destruct (quot_bounds n (Z.pos d) ltac:(lia)) as [_ Hq].
        specialize (Hq ltac:(lia)). nia.
      * destruct b as [m e]. unfold Qtrunc. cbn [Qnum Qden] in *.
        apply Z.quot_pos; lia.
Qed.

Lemma scale_le (a b : Q) : (a <= b)%Q -> (scale a <= scale b)%Q.
Proof.
  intros H. unfold scale. rewrite !lt_zero_num.
  destruct a as [n d], b as [m e]. cbn [Qnum].
  destruct (Z.ltb_spec n 0), (Z.ltb_spec m 0); unfold Qle in *;
    cbn [Qnum Qden Qmult inject_Z] in *; rewrite !Pos.mul_1_r; nia.
Qed.

Lemma clamp_le (a b : Q) : (a <= b)%Q -> (clamp a <= clamp b)%Q.
Proof.
  intros H. unfold clamp.
  apply Q.max_le_compat_l, Q.min_le_compat_l, H.
Qed.

Lemma float32ToInt16_le (x y : Q) :
  (x <= y)%Q -> float32ToInt16 (Fin x) <= float32ToInt16 (Fin y).
Proof.
  intros H. rewrite !float32ToInt16_truncates.
  apply Qtrunc_le, scale_le, clamp_le, H.
Qed.

(** X4.  Encoding keeps the order of the samples: a larger sample never gets
    a smaller word, so the 16-bit store never wraps around. *)
Theorem float32ToInt16_monotone (x y : Q) :
  (x <= y)%Q -> float32ToInt16 (Fin x) <= float32ToInt16 (Fin y).
Proof.
  intros H. rewrite !float32ToInt16_truncates.
  apply Qtrunc_le; apply scale_le; apply clamp_le; exact H.
Qed.

Lemma float32ToInt16_monotone_witness :
  (-3 # 4 <= 1 # 5)%Q
  /\ float32ToInt16 (Fin (-3 # 4)) <= float32ToInt16 (Fin (1 # 5)).
Proof.
  assert (H : (-3 # 4 <= 1 # 5)%Q) by discriminate.
  split; [exact H|]. apply (float32ToInt16_monotone _ _ H).
Defined.

(** X5.  Saturation.  Every sample at or above 1, plus infinity included, is
    stored as 32767, every sample at or below -1 as -32768; NaN is stored
    as 0; no sample is stored outside the 16-bit range. *)
Theorem float32ToInt16_saturates (x : float) :
  -32768 <= float32ToInt16 x <= 32767
  /\ float32ToInt16 PInf = 32767
  /\ float32ToInt16 NInf = -32768
  /\ float32ToInt16 NaN = 0
  /\ forall q : Q,
       ((1 <= q)%Q -> float32ToInt16 (Fin q) = 32767)
       /\ ((q <= -1)%Q -> float32ToInt16 (Fin q) = -32768).
Proof.
  split; [apply float32ToInt16_range|].
  split; [reflexivity|]. split; [reflexivity|]. split; [reflexivity|].
  intros q. split; intros H.
  - apply Z.le_antisymm; [apply float32ToInt16_range|].
    change 32767 with (float32ToInt16 (Fin 1)).
    apply float32ToInt16_le, H.
  - apply Z.le_antisymm; [|apply float32ToInt16_range].
    change (-32768) with (float32ToInt16 (Fin (-1))).
    apply float32ToInt16_le, H.
Qed.

Lemma float32ToInt16_saturates_witness :
  (1 <= 7 # 2)%Q /\ float32ToInt16 (Fin (7 # 2)) = 32767
  /\ (-9 <= -1)%Q /\ float32ToInt16 (Fin (-9)) = -32768.
Proof.
  destruct (float32ToInt16_saturates NaN) as (_ & _ & _ & _ & H).
  split; [discriminate|]. split; [apply (proj1 (H (7 # 2))); discriminate|].
  split; [discriminate|]. apply (proj2 (H (-9)%Q)). discriminate.
Defined.

Lemma float32ToInt16_int16ToFloat (v : Z) :
  -32768 <= v <= 32767 ->
  float32ToInt16 (Fin (int16ToFloat v)) = reencoded v.
Proof.
  intros Hv. rewrite float32ToInt16_truncates. unfold int16ToFloat, reencoded.
  assert (Hlo : (-1 <= v # 32768)%Q) by (unfold Qle; cbn [Qnum Qden]; lia).
  assert (Hhi : (v # 32768 <= 1)%Q) by (unfold Qle; cbn [Qnum Qden]; lia).
  destruct (clamp_cases (v # 32768)) as [[E _]|[[E H]|[E H]]].
  - rewrite E.
    destruct (Qtrunc_scale_bounds (v # 32768) Hlo Hhi) as (_ & Hpos & Hneg).
    cbn [Qnum Qden] in Hpos, Hneg.
    destruct (Z.ltb_spec 0 v) as [Hs|Hs].
    + specialize (Hpos ltac:(lia)). lia.
    + destruct (Z_lt_le_dec v 0) as [Hn|Hn].
      * specialize (Hneg Hn). lia.
      * specialize (Hpos Hn). lia.
  - exfalso. unfold Qle in H. cbn [Qnum Qden] in H. lia.
  - assert (v = -32768) by (unfold Qle in H; cbn [Qnum Qden] in H; lia).
    subst v. rewrite E. reflexivity.
Qed.

(** X6.  Decoding then encoding is not the identity: a positive word comes
    back one step lower, the other words come back as they were. *)
Theorem reencode_word (v : Z) :
  -32768 <= v <= 32767 ->
  float32ToInt16 (Fin (int16ToFloat v)) = reencoded v.
Proof.
  intros Hv. rewrite float32ToInt16_truncates. unfold int16ToFloat, reencoded.
  assert (Hlo : (-1 <= v # 32768)%Q) by (unfold Qle; cbn [Qnum Qden]; lia).
  assert (Hhi : (v # 32768 <= 1)%Q) by (unfold Qle; cbn [Qnum Qden]; lia).
  destruct (clamp_cases (v # 32768)) as [[E _]|[[E H]|[E H]]].
  - rewrite E.
    destruct (Qtrunc_scale_bounds (v # 32768) Hlo Hhi) as (_ & Hpos & Hneg).
    cbn [Qnum Qden] in Hpos, Hneg.
    destruct (Z.ltb_spec 0 v) as [Hs|Hs].
    + specialize (Hpos ltac:(lia)). lia.
    + destruct (Z_lt_le_dec v 0) as [Hn|Hn].
      * specialize (Hneg Hn). lia.
      * specialize (Hpos Hn). lia.
  - exfalso. unfold Qle in H. cbn [Qnum Qden] in H. lia.
  - assert (v = -32768) by (unfold Qle in H; cbn [Qnum Qden] in H; lia).
    subst v. rewrite E. reflexivity.
Qed.

Lemma reencode_word_witness :
  -32768 <= 1000 <= 32767
  /\ float32ToInt16 (Fin (int16ToFloat 1000)) = reencoded 1000.
Proof.
  split; [lia|]. apply (reencode_word 1000). lia.
Defined.

(** X7.  The same for a chunk: decoding it and encoding its samples again
    gives the words of [reencoded], for every chunk the decoder accepts. *)
Theorem reencode_chunk (data : Uint8Array) (rate : Z) (b : AudioBuffer) :
  pcmToAudioBuffer data rate 1 = Some b ->
  exists channel : list Q,
    channelData b = [channel]
    /\ int16_view (float32ToPCM (map Fin channel))
       = map reencoded (int16_view data).
Proof.
  intros Hb.
  destruct (LiveFacts.pcmToAudioBuffer_shape data rate 1 b Hb) as (_ & _ & _ & Hr & _).
  rewrite (pcmToAudioBuffer_mono data rate Hr) in Hb.
  destruct (Z.of_nat (length data) <? 2); [discriminate|].
  injection Hb as <-. eexists. split; [reflexivity|].
  rewrite int16_view_float32ToPCM, !map_map.
  pose proof (int16_view_range data) as R.
  induction R as [|v l Hv _ IH]; cbn [map]; [reflexivity|].
  rewrite (float32ToInt16_int16ToFloat v Hv), IH. reflexivity.
Qed.

Lemma reencode_chunk_witness :
  pcmToAudioBuffer [x10; x00; xf0; xff] 24000 1
  = Some (mkAudioBuffer 1 2 24000 [[16 # 32768; -16 # 32768]%Q])
  /\ exists channel : list Q,
       [[16 # 32768; -16 # 32768]%Q] = [channel]
       /\ int16_view (float32ToPCM (map Fin channel))
          = map reencoded (int16_view [x10; x00; xf0; xff]).
Proof.
  assert (H : pcmToAudioBuffer [x10; x00; xf0; xff] 24000 1
              = Some (mkAudioBuffer 1 2 24000 [[16 # 32768; -16 # 32768]%Q]))
    by (vm_compute; reflexivity).
  split; [exact H|].
  apply (reencode_chunk [x10; x00; xf0; xff] 24000 _ H).
Defined.

Lemma interleave_length (left right : list Z) :
  length left = length right ->
  length (interleave left right) = (2 * length left)%nat.
Proof.
  revert right. induction left as [|l left IH]; intros [|r right] H;
    try discriminate; [reflexivity|].
  cbn [interleave length]. rewrite (IH right) by (cbn in H; lia). lia.
Qed.

Lemma interleave_range (left right : list Z) :
  Forall (fun v => -32768 <= v <= 32767) left ->
  Forall (fun v => -32768 <= v <= 32767) right ->
  Forall (fun v => -32768 <= v <= 32767) (interleave left right).
Proof.
  intros Hl. revert right. induction Hl as [|l left Hv _ IH];
    intros right Hr; [constructor|].
  destruct Hr as [|r right Hw Hr]; [constructor|].
  cbn [interleave]. constructor; [exact Hv|]. constructor; [exact Hw|].
  apply IH, Hr.
Qed.

Lemma nth_interleave (left right : list Z) (k : nat) :
  length left = length right ->
  nth (2 * k) (interleave left right) 0 = nth k left 0
  /\ nth (2 * k + 1) (interleave left right) 0 = nth k right 0.
Proof.
  revert right k. induction left as [|l left IH]; intros [|r right] k H;
    try discriminate.
  - destruct k; split; reflexivity.
  - destruct k as [|k]; [split; reflexivity|].
    destruct (IH right k ltac:(cbn in H; lia)) as [E0 E1].
    replace (2 * S k)%nat with (S (S (2 * k))) by lia.
    replace (S (S (2 * k)) + 1)%nat with (S (S (2 * k + 1))) by lia.
    cbn [interleave nth]. split; assumption.
Qed.

(** X8.  Decoding a stereo chunk separates the channels: the words at even
    places go to the first channel and those at odd places to the second,
    each divided by 32768. *)
Theorem pcmToAudioBuffer_stereo (left right : list Z) (rate : Z) :
  8000 <= rate <= 96000 ->
  length left = length right ->
  left <> [] ->
  Forall (fun v => -32768 <= v <= 32767) left ->
  Forall (fun v => -32768 <= v <= 32767) right ->
  pcmToAudioBuffer (int16_buffer (interleave left right)) rate 2
  = Some (mkAudioBuffer 2 (Z.of_nat (length left)) rate
            [map int16ToFloat left; map int16ToFloat right]).
Proof.
  intros Hr Hlen Hne Hl Hrr.
  unfold pcmToAudioBuffer, createBuffer.
  rewrite (int16_view_buffer _ (interleave_range left right Hl Hrr)).
  rewrite (interleave_length left right Hlen).
  replace (Z.of_nat (2 * length left) / 2) with (Z.of_nat (length left)) by lia.
  assert (Hn : 1 <= Z.of_nat (length left))
    by (destruct left; [congruence|cbn [length]; lia]).
  replace (1 <=? Z.of_nat (length left)) with true by (symmetry; apply Z.leb_le; lia).
  replace (8000 <=? rate) with true by (symmetry; apply Z.leb_le; lia).
  replace (rate <=? 96000) with true by (symmetry; apply Z.leb_le; lia).
  cbn [andb Z.leb Z.compare Pos.compare Pos.compare_cont
       numberOfChannels buf_length buf_sampleRate].
  change (range 2) with [0; 1]. cbn [map].
  unfold range. rewrite Nat2Z.id, !map_map.
  f_equal. f_equal. f_equal; [|f_equal].
  - rewrite <- (map_nth_seq int16ToFloat 0 left).
    apply map_ext. intros k.
    replace (Z.to_nat (Z.of_nat k * 2 + 0)) with (2 * k)%nat by lia.
    rewrite (proj1 (nth_interleave left right k Hlen)). reflexivity.
  - rewrite Hlen, <- (map_nth_seq int16ToFloat 0 right).
    apply map_ext. intros k.
    replace (Z.to_nat (Z.of_nat k * 2 + 1)) with (2 * k + 1)%nat by lia.
    rewrite (proj2 (nth_interleave left right k Hlen)). reflexivity.
Qed.

Lemma pcmToAudioBuffer_stereo_witness :
  8000 <= 24000 <= 96000
  /\ pcmToAudioBuffer (int16_buffer (interleave [1; -2] [300; -32768])) 24000 2
     = Some (mkAudioBuffer 2 (Z.of_nat (length [1; -2])) 24000
               [map int16ToFloat [1; -2]; map int16ToFloat [300; -32768]]).
Proof.
  split; [lia|].
  apply (pcmToAudioBuffer_stereo [1; -2] [300; -32768] 24000).
  - lia.
  - reflexivity.
  - discriminate.
  - repeat constructor; lia.
  - repeat constructor; lia.
Defined.

(* ------------------------------------------------------------------ *)
(** * The WAV container: values that do not fit *)

Ltac header_field_mod :=
  first
    [ rewrite getUint32_skip; cbn [skipn]; apply getUint32_bytes;
      apply Z.mod_pos_bound; lia
    | rewrite getUint16_skip; cbn [skipn]; apply getUint16_bytes;
      apply Z.mod_pos_bound; lia ].

(** Doubling is exact as long as the operand is: the result needs no more
    than 53 significant bits. *)
Lemma binary64_round_double (z : Z) :
  Z.abs z < 2 ^ 53 -> binary64_round (z * 2) = Some (z * 2).
Proof.
  intros H. unfold binary64_round.
  destruct (Z.ltb_spec (Z.abs (z * 2)) (2 ^ 53)) as [|Hge]; [reflexivity|].
  assert (H53 : 2 ^ 53 = 9007199254740992) by reflexivity.
  assert (H54 : 2 ^ (Z.succ 53) = 18014398509481984) by reflexivity.
  assert (Hl : Z.log2 (Z.abs (z * 2)) = 53).
  { apply Z.log2_unique; [discriminate|]. rewrite H53, H54.
    rewrite H53 in H, Hge. clear - H Hge. lia. }
  rewrite Hl. change (53 - 52) with 1. change (2 ^ 1) with 2.
  change (2 ^ (1 - 1)) with 1. cbv zeta.
  assert (Hr : Z.abs (z * 2) mod 2 = 0) by (clear; lia).
  rewrite Hr. cbn [Z.ltb Z.compare].
  assert (Hq : Z.abs (z * 2) / 2 * 2 = Z.abs (z * 2)) by (clear; lia).
  rewrite Hq.
  assert (Hv : Z.abs (z * 2) < 2 ^ 1024).
  { apply Z.lt_trans with (2 ^ 54); [|reflexivity].
    change (2 ^ 54) with 18014398509481984. rewrite H53 in H. clear - H. lia. }
  destruct (Z.ltb_spec (Z.abs (z * 2)) (2 ^ 1024)) as [_|Hbad];
    [|exfalso; apply (Z.lt_irrefl (2 ^ 1024));
      eapply Z.le_lt_trans; eassumption].
  f_equal. clear. lia.
Qed.

(** X9.  Whatever the arguments, integers that are JavaScript numbers,
    each numeric field of the header holds the value the function
    computes for it, modulo the width of the field: a channel count of
    65536 is declared as 0, and the sizes of a chunk of 4 GiB or more
    wrap.  The computed value is the product or the sum as JavaScript
    numbers give it: the exact one as long as rate times channels stays
    below 2^53, a rounded one beyond, as for a rate of 2^52+1 and 3
    channels, where the byte rate written is 8 and not the 6 of the exact
    product. *)
Theorem pcmToWav_fields_wrap (pcmData : Uint8Array) (sampleRate numChannels : Z) :
  is_number sampleRate ->
  is_number numChannels ->
  Z.of_nat (length pcmData) < 2 ^ 53 ->
  let wav := pcmToWav pcmData sampleRate numChannels in
  let len := Z.of_nat (length pcmData) in
  getUint32 4 wav
  = to_integer (js_add (Some 36) (Some len)) mod 4294967296
  /\ getUint16 22 wav = numChannels mod 65536
  /\ getUint32 24 wav = sampleRate mod 4294967296
  /\ getUint32 28 wav
     = to_integer (js_mul (js_mul (Some sampleRate) (Some numChannels)) (Some 2))
       mod 4294967296
  /\ getUint16 32 wav
     = to_integer (js_mul (Some numChannels) (Some 2)) mod 65536
  /\ getUint32 40 wav = len mod 4294967296
  /\ (len < 2 ^ 53 - 36 -> getUint32 4 wav = (36 + len) mod 4294967296)
  /\ (Z.abs (sampleRate * numChannels) < 2 ^ 53 ->
      getUint32 28 wav = (sampleRate * numChannels * 2) mod 4294967296)
  /\ (Z.abs numChannels < 2 ^ 53 ->
      getUint16 32 wav = (numChannels * 2) mod 65536)
  /\ getUint32 28 (pcmToWav [] (2 ^ 52 + 1) 3) = 8
  /\ ((2 ^ 52 + 1) * 3 * 2) mod 4294967296 = 6.
Proof.
  intros _ _ _. cbv zeta. rewrite pcmToWav_layout.
  pose proof (Nat2Z.is_nonneg (length pcmData)) as Hn.
  set (n := Z.of_nat (length pcmData)) in *.
  assert (H53 : 2 ^ 53 = 9007199254740992) by reflexivity.
  unfold wav_header. cbn [list_ascii_of_string map app].
  set (u4 := to_integer (js_add (Some 36) (Some n))).
  set (u28 := to_integer (js_mul (js_mul (Some sampleRate) (Some numChannels))
                                 (Some 2))).
  set (u32 := to_integer (js_mul (Some numChannels) (Some 2))).
  match goal with
  | |- getUint32 4 ?w = _ /\ _ =>
      assert (G4 : getUint32 4 w = u4 mod 4294967296) by header_field_mod;
      assert (G28 : getUint32 28 w = u28 mod 4294967296) by header_field_mod;
      assert (G32 : getUint16 32 w = u32 mod 65536) by header_field_mod
  end.
  split; [exact G4|].
  split; [header_field_mod|].
  split; [header_field_mod|].
  split; [exact G28|].
  split; [exact G32|].
  split; [header_field_mod|].
  split.
  { intros Hl. rewrite G4. unfold u4. cbn [js_add].
    rewrite binary64_round_small by (rewrite H53 in *; clear - Hl Hn; lia).
    reflexivity. }
  split.
  { intros Hp. rewrite G28. unfold u28. cbn [js_mul].
    rewrite (binary64_round_small _ Hp). cbn [js_mul].
    rewrite (binary64_round_double _ Hp). reflexivity. }
  split.
  { intros Hc. rewrite G32. unfold u32. cbn [js_mul].
    rewrite (binary64_round_double _ Hc). reflexivity. }
  split; vm_compute; reflexivity.
Qed.

Lemma pcmToWav_fields_wrap_witness :
  is_number 24000 /\ is_number 65536
  /\ Z.of_nat (length [x01; x02]) < 2 ^ 53
  /\ Z.of_nat (length [x01; x02]) < 2 ^ 53 - 36
  /\ Z.abs (24000 * 65536) < 2 ^ 53
  /\ Z.abs 65536 < 2 ^ 53
  /\ getUint32 4 (pcmToWav [x01; x02] 24000 65536) = 38
  /\ getUint32 28 (pcmToWav [x01; x02] 24000 65536) = 3145728000 mod 4294967296
  /\ getUint16 32 (pcmToWav [x01; x02] 24000 65536) = 0.
Proof.
  assert (H1 : Z.of_nat (length [x01; x02]) < 2 ^ 53 - 36) by reflexivity.
  assert (H2 : Z.abs (24000 * 65536) < 2 ^ 53) by reflexivity.
  assert (H3 : Z.abs 65536 < 2 ^ 53) by reflexivity.
  assert (N1 : is_number 24000) by reflexivity.
  assert (N2 : is_number 65536) by reflexivity.
  assert (N3 : Z.of_nat (length [x01; x02]) < 2 ^ 53) by reflexivity.
  destruct (pcmToWav_fields_wrap [x01; x02] 24000 65536 N1 N2 N3)
    as (_ & _ & _ & _ & _ & _ & G1 & G2 & G3 & _).
  split; [exact N1|]. split; [exact N2|]. split; [exact N3|].
  split; [exact H1|]. split; [exact H2|]. split; [exact H3|].
  split; [exact (G1 H1)|]. split; [exact (G2 H2)|]. exact (G3 H3).
Defined.

(* ------------------------------------------------------------------ *)
(** * Error texts: the test of [startSession] *)

(** X10.  The [catch] of [startSession] has two alternatives only: a text is a
    quota error there exactly when it contains "429" or "quota"; it
    disagrees with the test of [onerror] exactly on the texts that contain
    "Resource has been exhausted" and neither of the two. *)
Theorem classify_start_rate_limited (text : string) :
  (classify_start text = TransportRateLimited
   <-> contains text "429" \/ contains text "quota")
  /\ (classify_start text <> classify text
      <-> contains text "Resource has been exhausted"
          /\ ~ contains text "429" /\ ~ contains text "quota").
Proof.
  rewrite <- !includes_contains. unfold classify_start, classify.
  destruct (includes text "429"), (includes text "quota"),
    (includes text "Resource has been exhausted"); cbn [orb];
    (split; split; try discriminate; try reflexivity; try congruence;
     intuition (try discriminate; try congruence)).
Qed.

(* ------------------------------------------------------------------ *)
(** * LiveSession: the life of a session *)

Module LiveMore.
Import Live LiveFacts LiveStart.

(** Evaluation of every handler on a session given by its fields. *)
Ltac live_simpl :=
  cbv [startSession_begin startSession_stream startSession_connect
       startSession_catch onopen onclose onerror
       cleanup interrupt schedule onended stopActiveSources
       setIsRecording setStatus showNotification set_mediaStreamRef
       set_inputSourceRef set_processorRef set_sessionPromiseRef
       set_nextStartTimeRef set_activeSourcesRef set_nextSource call
       isRecording status notification mediaStreamRef inputSourceRef
       processorRef sessionPromiseRef nextStartTimeRef activeSourcesRef
       nextSource calls].

Lemma teardown_cleanup (s : Session) (ev : Event) :
  is_teardown ev = true ->
  exists s', handle s ev = cleanup s'
             /\ calls s' = calls s
             /\ activeSourcesRef s' = activeSourcesRef s
             /\ mediaStreamRef s' = mediaStreamRef s
             /\ processorRef s' = processorRef s
             /\ inputSourceRef s' = inputSourceRef s
             /\ nextSource s' = nextSource s
             /\ nextStartTimeRef s' = nextStartTimeRef s.
Proof.
  destruct ev as [src p|now m|a| |e| ]; try discriminate; intros _;
    cbn [handle].
  - exists (setStatus StatusDisconnected s). destruct s. repeat split.
  - exists (showNotification (notice_of (classify (errorMessage e))) s).
    destruct s. repeat split.
  - exists s. repeat split.
Qed.

(** X11.  A session started, opened and torn down.  After the start and the
    opening of the transport the session streams, with the cursor at the
    clock of the new context and nothing started or released yet; whichever way it is
    torn down (close, error or stop), it ends Idle and exactly the active
    sources, the tracks of the stream, the processor and the input source
    have been released, in this order. *)
Theorem session_lifecycle (s : Session) (now : Q) (tracks : list nat)
        (session source processor : nat) (ev : Event) :
  is_teardown ev = true ->
  let s1 := onopen source processor
              (startSession_connect session
                 (startSession_stream tracks (startSession_begin now s))) in
  streaming s1
  /\ nextStartTimeRef s1 = now
  /\ calls s1 = calls s
  /\ idle (handle s1 ev)
  /\ calls (handle s1 ev)
     = calls s ++ map SourceStop (activeSourcesRef s)
       ++ map TrackStop tracks
       ++ [ProcessorDisconnect processor; InputDisconnect source].
Proof.
  intros Hev. cbv zeta.
  split; [|split; [|split]].
  - destruct s; unfold streaming; live_simpl. repeat split; discriminate.
  - destruct s; reflexivity.
  - destruct s; reflexivity.
  - destruct (teardown_cleanup
                (onopen source processor
                   (startSession_connect session
                      (startSession_stream tracks (startSession_begin now s))))
                ev Hev)
      as (s' & -> & Hc & Ha & Hm & Hp & Hi & _).
    split; [apply cleanup_idle|].
    rewrite calls_cleanup. unfold releases. rewrite Hc, Ha, Hm, Hp, Hi.
    destruct s; live_simpl. reflexivity.
Qed.

Lemma session_lifecycle_witness :
  is_teardown Closed = true
  /\ calls (handle (onopen 7 8
                      (startSession_connect 1
                         (startSession_stream [4; 5]%nat
                            (startSession_begin (1 # 2) initial))))
                   Closed)
     = calls initial ++ map SourceStop (activeSourcesRef initial)
       ++ map TrackStop [4; 5]%nat
       ++ [ProcessorDisconnect 8; InputDisconnect 7].
Proof.
  split; [reflexivity|].
  apply (session_lifecycle initial (1 # 2) [4; 5]%nat 1 7 8 Closed eq_refl).
Defined.

(** X12.  A start that fails.  From an Idle session, a failure while the
    microphone is requested leaves the session Idle with the notice of
    the start and no call made; a failure after the stream was granted
    stops the tracks of the stream and nothing else. *)
Theorem startSession_failure (s : Session) (now : Q) (err : JsError)
        (tracks : list nat) :
  idle s ->
  let early := startSession_catch err (startSession_begin now s) in
  let late := startSession_catch err
                (startSession_stream tracks (startSession_begin now s)) in
  idle early /\ calls early = calls s
  /\ notification early
     = Some (start_notice (classify_start (errorMessage err)))
  /\ idle late /\ calls late = calls s ++ map TrackStop tracks
  /\ notification late
     = Some (start_notice (classify_start (errorMessage err))).
Proof.
  intros Hidle. cbv zeta.
  split; [apply cleanup_idle|]. split.
  - unfold startSession_catch. rewrite calls_cleanup.
    destruct s as [r st n ms i p h t a k c].
    unfold idle in Hidle. cbn in Hidle.
    destruct Hidle as (_ & _ & -> & -> & -> & _ & ->).
    unfold releases. live_simpl. cbn [map app]. apply app_nil_r.
  - split.
    + destruct s as [r st n ms i p h t a k c].
      unfold idle in Hidle. cbn in Hidle.
      destruct Hidle as (_ & _ & -> & -> & -> & _ & ->). reflexivity.
    + split; [apply cleanup_idle|]. split.
      * unfold startSession_catch. rewrite calls_cleanup.
        destruct s as [r st n ms i p h t a k c].
        unfold idle in Hidle. cbn in Hidle.
        destruct Hidle as (_ & _ & -> & -> & -> & _ & ->).
        unfold releases. live_simpl. cbn [map app]. rewrite app_nil_r.
        reflexivity.
      * destruct s as [r st n ms i p h t a k c].
        unfold idle in Hidle. cbn in Hidle.
        destruct Hidle as (_ & _ & -> & -> & -> & _ & ->). reflexivity.
Qed.

Lemma startSession_failure_witness :
  idle initial
  /\ calls (startSession_catch (mkJsError "Permission denied" "NotAllowedError")
              (startSession_stream [3]%nat (startSession_begin 0 initial)))
     = calls initial ++ map TrackStop [3]%nat.
Proof.
  assert (H : idle initial) by (unfold idle; cbn; repeat split).
  split; [exact H|].
  destruct (startSession_failure initial 0
              (mkJsError "Permission denied" "NotAllowedError") [3]%nat H)
    as (_ & _ & _ & _ & G & _).
  exact G.
Defined.

(* ------------------------------------------------------------------ *)
(** * LiveSession: what every reachable session satisfies *)

Lemma onmessage_cases (now : Q) (m : LiveServerMessage) (s : Session) :
  let s0 := if interrupted m then interrupt now s else s in
  fst (onmessage now m s) = s0
  \/ exists (d : string) (b : AudioBuffer),
       inlineData m = Some d /\ decodeChunk d = Some b
       /\ onmessage now m s = (schedule now b s0, Returned).
Proof.
  cbv zeta. unfold onmessage.
  destruct (inlineData m) as [d|]; [|left; reflexivity].
  destruct (String.eqb d ""); [left; reflexivity|].
  destruct (base64ToUint8Array d) as [pcm|] eqn:Eb; [|left; reflexivity].
  destruct (pcmToAudioBuffer pcm 24000 1) as [b|] eqn:E; [|left; reflexivity].
  right. exists d, b. split; [reflexivity|]. split; [|reflexivity].
  unfold decodeChunk. rewrite Eb. exact E.
Qed.

Lemma interrupt_fields (now : Q) (s : Session) :
  status (interrupt now s) = StatusInterrupted
  /\ isRecording (interrupt now s) = isRecording s
  /\ inputSourceRef (interrupt now s) = inputSourceRef s
  /\ processorRef (interrupt now s) = processorRef s
  /\ nextSource (interrupt now s) = nextSource s
  /\ mediaStreamRef (interrupt now s) = mediaStreamRef s
  /\ sessionPromiseRef (interrupt now s) = sessionPromiseRef s.
Proof. destruct s. repeat split. Qed.

Lemma schedule_fields (now : Q) (b : AudioBuffer) (s : Session) :
  status (schedule now b s) = status s
  /\ isRecording (schedule now b s) = isRecording s
  /\ inputSourceRef (schedule now b s) = inputSourceRef s
  /\ processorRef (schedule now b s) = processorRef s
  /\ mediaStreamRef (schedule now b s) = mediaStreamRef s
  /\ sessionPromiseRef (schedule now b s) = sessionPromiseRef s.
Proof. destruct s. repeat split. Qed.

Lemma set_add_fresh (x : nat) (l : list nat) :
  ~ In x l -> set_add x l = l ++ [x].
Proof.
  intros H. unfold set_add.
  destruct (existsb (Nat.eqb x) l) eqn:E; [|reflexivity].
  apply existsb_exists in E. destruct E as (y & Hy & E).
  apply Nat.eqb_eq in E. subst y. contradiction.
Qed.

Lemma set_delete_last (x : nat) (l : list nat) :
  ~ In x l -> set_delete x (l ++ [x]) = l.
Proof.
  intros H. unfold set_delete. rewrite filter_app. cbn [filter].
  rewrite Nat.eqb_refl. cbn [negb]. rewrite app_nil_r.
  apply filter_all, Forall_forall. intros y Hy.
  apply negb_true_iff, Nat.eqb_neq. intros ->. contradiction.
Qed.

Lemma set_delete_absent (x : nat) (l : list nat) :
  ~ In x l -> set_delete x l = l.
Proof.
  intros H. apply filter_all, Forall_forall. intros y Hy.
  apply negb_true_iff, Nat.eqb_neq. intros ->. contradiction.
Qed.

Lemma below_not_in (n : nat) (l : list nat) :
  Forall (fun a => (a < n)%nat) l -> ~ In n l.
Proof.
  intros H Hin. rewrite Forall_forall in H. specialize (H n Hin). lia.
Qed.

Lemma well_formed_cleanup (s : Session) : well_formed (cleanup s).
Proof.
  destruct (cleanup_idle s) as (Hr & Hst & _ & _ & _ & _ & Ha).
  unfold well_formed. rewrite Ha, Hst, Hr.
  split; [constructor|]. split; [constructor|].
  split; [discriminate|left; reflexivity].
Qed.

Lemma well_formed_schedule (now : Q) (b : AudioBuffer) (s : Session) :
  well_formed s -> well_formed (schedule now b s).
Proof.
  intros (Hn & Hf & Hs & Hr).
  destruct (schedule_effect now b s) as (_ & _ & Ha & Hk).
  destruct (schedule_fields now b s) as (Est & Er & Ei & Ep & _).
  unfold well_formed. rewrite Ha, Hk, Est, Er, Ei, Ep.
  rewrite (set_add_fresh _ _ (below_not_in _ _ Hf)).
  repeat split; try assumption.
  - apply NoDup_app; [exact Hn|repeat constructor; intros []|].
    intros a Ha' [<-|[]]. exact (below_not_in _ _ Hf Ha').
  - apply Forall_app. split.
    + eapply Forall_impl; [|exact Hf]. cbv beta. intros a Ha'. lia.
    + repeat constructor.
Qed.

Lemma well_formed_interrupt (now : Q) (s : Session) :
  well_formed s -> well_formed (interrupt now s).
Proof.
  intros (Hn & Hf & Hs & Hr).
  destruct (interrupt_effect now s) as (Ha & _ & _).
  destruct (interrupt_fields now s) as (Est & Er & Ei & Ep & _).
  unfold well_formed. rewrite Ha, Est, Er, Ei, Ep.
  split; [constructor|]. split; [constructor|]. split; [discriminate|exact Hr].
Qed.

Lemma well_formed_handle (s : Session) (ev : Event) :
  well_formed s -> well_formed (handle s ev).
Proof.
  intros H. destruct ev as [src p|now m|a| |e| ]; cbn [handle];
    try apply well_formed_cleanup.
  - destruct H as (Hn & Hf & Hs & Hr). destruct s. unfold well_formed in *.
    live_simpl. cbv [activeSourcesRef nextSource status isRecording
                     inputSourceRef processorRef] in *.
    split; [assumption|]. split; [assumption|]. split; [discriminate|].
    right. split; discriminate.
  - assert (H0 : well_formed (if interrupted m then interrupt now s else s))
      by (destruct (interrupted m); [apply well_formed_interrupt|]; exact H).
    destruct (onmessage_cases now m s) as [E|(d & b & _ & _ & E)];
      rewrite E; [exact H0|].
    cbn [fst]. apply well_formed_schedule, H0.
  - destruct H as (Hn & Hf & Hs & Hr). destruct s. unfold well_formed in *.
    live_simpl. cbv [activeSourcesRef nextSource status isRecording
                     inputSourceRef processorRef] in *.
    split; [apply set_delete_NoDup, Hn|]. split; [|split; assumption].
    unfold set_delete. apply Forall_forall. intros x Hx.
    apply filter_In in Hx. rewrite Forall_forall in Hf. apply Hf, Hx.
Qed.

Lemma well_formed_act (s : Session) (a : Action) :
  well_formed s -> well_formed (act s a).
Proof.
  intros H. destruct a as [now|tracks|session|err|ev]; cbn [act].
  - destruct H as (Hn & Hf & Hs & Hr). destruct s. unfold well_formed in *.
    live_simpl. cbv [activeSourcesRef nextSource status isRecording
                     inputSourceRef processorRef] in *.
    split; [assumption|]. split; [assumption|]. split; [discriminate|assumption].
  - destruct H as (Hn & Hf & Hs & Hr). destruct s. unfold well_formed in *.
    live_simpl. cbv [activeSourcesRef nextSource status isRecording
                     inputSourceRef processorRef] in *.
    split; [assumption|]. split; [assumption|]. split; [discriminate|assumption].
  - destruct H as (Hn & Hf & Hs & Hr). destruct s. unfold well_formed in *.
    live_simpl. cbv [activeSourcesRef nextSource status isRecording
                     inputSourceRef processorRef] in *.
    split; [assumption|]. split; [assumption|]. split; assumption.
  - apply well_formed_cleanup.
  - apply well_formed_handle, H.
Qed.

(** X13.  Whatever the component has reacted to since it was mounted, its
    session is well formed: the active set holds each source once and
    only sources already made, the status is never the one of a
    disconnection (the status set by [onclose] is overwritten by the
    teardown in the same handler), and a recording session has its
    capture nodes. *)
Theorem play_well_formed (actions : list Action) :
  well_formed (play initial actions).
Proof.
  unfold play.
  assert (H : well_formed initial).
  { unfold well_formed. cbn.
    split; [constructor|]. split; [constructor|].
    split; [discriminate|left; reflexivity]. }
  revert H. generalize initial.
  induction actions as [|a actions IH]; intros s H; [exact H|].
  cbn [fold_left]. apply IH, well_formed_act, H.
Qed.

(** X14.  In a well-formed session a scheduled chunk adds exactly one source,
    a new one, at the end of the active set; when that source ends the
    active set is what it was; and the end of a source that is no longer
    in the set, as after an interruption, changes nothing. *)
Theorem schedule_then_ended (s : Session) (now : Q) (b : AudioBuffer) :
  well_formed s ->
  activeSourcesRef (schedule now b s) = activeSourcesRef s ++ [nextSource s]
  /\ onended (nextSource s) (schedule now b s)
     = set_activeSourcesRef (activeSourcesRef s) (schedule now b s)
  /\ activeSourcesRef (onended (nextSource s) (schedule now b s))
     = activeSourcesRef s
  /\ onended (nextSource s) (interrupt now (schedule now b s))
     = interrupt now (schedule now b s).
Proof.
  intros (Hn & Hf & _).
  pose proof (below_not_in _ _ Hf) as Hfresh.
  destruct (schedule_effect now b s) as (_ & _ & Ha & _).
  rewrite (set_add_fresh _ _ Hfresh) in Ha.
  split; [exact Ha|].
  assert (E : onended (nextSource s) (schedule now b s)
              = set_activeSourcesRef (activeSourcesRef s) (schedule now b s)).
  { unfold onended. rewrite Ha, (set_delete_last _ _ Hfresh). reflexivity. }
  split; [exact E|]. split.
  - rewrite E. destruct (schedule now b s); reflexivity.
  - unfold onended.
    rewrite (proj1 (interrupt_effect now (schedule now b s))).
    cbn [set_delete filter].
    rewrite <- (proj1 (interrupt_effect now (schedule now b s))).
    destruct (interrupt now (schedule now b s)); reflexivity.
Qed.

Lemma schedule_then_ended_witness :
  well_formed streaming_session
  /\ activeSourcesRef (schedule (1 # 2) silence3 streaming_session)
     = activeSourcesRef streaming_session ++ [nextSource streaming_session]
  /\ activeSourcesRef
       (onended (nextSource streaming_session)
          (schedule (1 # 2) silence3 streaming_session))
     = activeSourcesRef streaming_session.
Proof.
  assert (H : well_formed streaming_session).
  { unfold well_formed. cbn. repeat split.
    - repeat constructor; cbn; intuition lia.
    - repeat constructor.
    - discriminate.
    - right. split; discriminate. }
  split; [exact H|].
  destruct (schedule_then_ended streaming_session (1 # 2) silence3 H)
    as (G1 & _ & G2 & _).
  split; assumption.
Defined.

(* ------------------------------------------------------------------ *)
(** * LiveSession: messages *)

Lemma onended_fields (a : nat) (s : Session) :
  status (onended a s) = status s
  /\ nextStartTimeRef (onended a s) = nextStartTimeRef s
  /\ calls (onended a s) = calls s.
Proof. destruct s. repeat split. Qed.

Lemma playback_status (s : Session) (ev : Event) :
  is_playback ev = true ->
  status s = StatusInterrupted ->
  status (handle s ev) = StatusInterrupted.
Proof.
  destruct ev as [src p|now m|a| |e| ]; try discriminate; intros _ H;
    cbn [handle].
  - assert (H0 : status (if interrupted m then interrupt now s else s)
                 = StatusInterrupted)
      by (destruct (interrupted m); [apply interrupt_fields|exact H]).
    destruct (onmessage_cases now m s) as [E|(d & b & _ & _ & E)];
      rewrite E; [exact H0|].
    cbn [fst]. rewrite (proj1 (schedule_fields now b _)). exact H0.
  - rewrite (proj1 (onended_fields a s)). exact H.
Qed.

(** X15.  Once a message has signalled an interruption, the status reads
    "interrupted" through every later message and end of source: nothing
    but a new opening or a teardown sets another status. *)
Theorem interrupted_status_stays (s : Session) (now : Q)
        (m : LiveServerMessage) (evs : list Event) :
  interrupted m = true ->
  forallb is_playback evs = true ->
  status (run (fst (onmessage now m s)) evs) = StatusInterrupted.
Proof.
  intros Hm Hevs.
  assert (H : status (fst (onmessage now m s)) = StatusInterrupted).
  { destruct (onmessage_cases now m s) as [E|(d & b & _ & _ & E)];
      rewrite E, Hm; [apply interrupt_fields|].
    cbn [fst]. rewrite (proj1 (schedule_fields now b _)).
    apply interrupt_fields. }
  revert H. generalize (fst (onmessage now m s)). unfold run.
  induction evs as [|ev evs IH]; intros s' H; [exact H|].
  cbn [forallb] in Hevs. apply andb_true_iff in Hevs. destruct Hevs as [He Hevs].
  cbn [fold_left]. apply (IH Hevs), playback_status; assumption.
Qed.

Lemma interrupted_status_stays_witness :
  interrupted interruptionMessage = true
  /\ forallb is_playback [Message 1 (audioMessage silence3_b64); Ended 2] = true
  /\ status (run (fst (onmessage (1 # 2) interruptionMessage streaming_session))
                 [Message 1 (audioMessage silence3_b64); Ended 2])
     = StatusInterrupted.
Proof.
  split; [reflexivity|]. split; [reflexivity|].
  apply (interrupted_status_stays streaming_session (1 # 2) interruptionMessage
           [Message 1 (audioMessage silence3_b64); Ended 2]); reflexivity.
Defined.



(** X17.  A chunk that cannot be decoded (text that is not base64, or fewer
    than two bytes) schedules nothing: the session is left as it is, or
    as the interruption of the same message left it, and unless the text
    is empty the handler ends by an exception that nothing catches. *)
Theorem undecodable_chunk (s : Session) (now : Q) (flag : bool)
        (data : string) :
  decodeChunk data = None ->
  let r := onmessage now (mkMessage flag (Some data)) s in
  fst r = (if flag then interrupt now s else s)
  /\ (snd r = Returned <-> data = ""%string).
Proof.
  intros Hd. cbv zeta. unfold onmessage. cbn [interrupted inlineData].
  unfold decodeChunk in Hd.
  destruct (String.eqb_spec data "") as [->|Hne].
  - split; [reflexivity|]. split; reflexivity.
  - destruct (base64ToUint8Array data) as [pcm|].
    + rewrite Hd. split; [reflexivity|]. split; [discriminate|contradiction].
    + split; [reflexivity|]. split; [discriminate|contradiction].
Qed.

Lemma undecodable_chunk_witness :
  decodeChunk "AA==" = None
  /\ fst (onmessage 0 (mkMessage false (Some "AA=="%string)) streaming_session)
     = streaming_session.
Proof.
  assert (H : decodeChunk "AA==" = None) by (vm_compute; reflexivity).
  split; [exact H|].
  exact (proj1 (undecodable_chunk streaming_session 0 false "AA==" H)).
Defined.

Lemma quiet_step (s : Session) (ev : Event) :
  is_quiet ev = true ->
  (nextStartTimeRef s <= nextStartTimeRef (handle s ev))%Q
  /\ exists new : list Q,
       startTimes (calls (handle s ev)) = startTimes (calls s) ++ new
       /\ (length new <= 1)%nat
       /\ Forall (fun t => (nextStartTimeRef s <= t)%Q
                           /\ (t <= nextStartTimeRef (handle s ev))%Q) new.
Proof.
  destruct ev as [src p|now m|a| |e| ]; try discriminate; intros Hq;
    cbn [handle].
  - cbn [is_quiet] in Hq. apply negb_true_iff in Hq.
    destruct (onmessage_cases now m s) as [E|(d & b & _ & Hb & E)];
      rewrite E, Hq.
    + split; [apply Qle_refl|]. exists []. rewrite app_nil_r.
      repeat split; [cbn; lia|constructor].
    + cbn [fst].
      destruct (schedule_effect now b s) as (C & T & _). cbv zeta in C, T.
      destruct (decodeChunk_duration d b Hb) as [_ D].
      assert (L : (nextStartTimeRef s <= Qmax (nextStartTimeRef s) now)%Q)
        by apply Q.le_max_l.
      assert (U : (Qmax (nextStartTimeRef s) now
                   <= nextStartTimeRef (schedule now b s))%Q)
        by (rewrite T; apply Qle_plus_nonneg, D).
      split; [eapply Qle_trans; eassumption|].
      exists [Qmax (nextStartTimeRef s) now].
      split; [rewrite C, startTimes_app; reflexivity|].
      split; [cbn; lia|]. repeat constructor; assumption.
  - destruct (onended_fields a s) as (_ & T & C). rewrite T, C.
    split; [apply Qle_refl|]. exists []. rewrite app_nil_r.
    repeat split; [cbn; lia|constructor].
Qed.

(** X18.  Without an interruption the playback timeline only moves forward.
    Through any run of audio messages and ends of sources the cursor
    never decreases, and the start times given to the sources, in the
    order of the calls, never decrease either and lie between the cursor
    before the run and the cursor after it. *)
Theorem quiet_run_ordered (evs : list Event) : forall s : Session,
  forallb is_quiet evs = true ->
  (nextStartTimeRef s <= nextStartTimeRef (run s evs))%Q
  /\ exists starts : list Q,
       startTimes (calls (run s evs)) = startTimes (calls s) ++ starts
       /\ StronglySorted Qle starts
       /\ Forall (fun t => (nextStartTimeRef s <= t)%Q
                           /\ (t <= nextStartTimeRef (run s evs))%Q) starts.
Proof.
  unfold run. induction evs as [|ev evs IH]; intros s Hq.
  - split; [apply Qle_refl|]. exists []. rewrite app_nil_r.
    repeat split; constructor.
  - cbn [forallb] in Hq. apply andb_true_iff in Hq. destruct Hq as [He Hq].
    cbn [fold_left].
    destruct (quiet_step s ev He) as (L1 & new & C1 & N1 & F1).
    destruct (IH (handle s ev) Hq) as (L2 & rest & C2 & S2 & F2).
    split; [eapply Qle_trans; eassumption|].
    exists (new ++ rest).
    split; [rewrite C2, C1, app_assoc; reflexivity|].
    split.
    + destruct new as [|t [|t' new]]; [exact S2| |cbn in N1; lia].
      cbn [app]. constructor; [exact S2|].
      inversion_clear F1 as [|? ? [_ Ht] _].
      eapply Forall_impl; [|exact F2]. cbv beta. intros r [Hr _].
      eapply Qle_trans; eassumption.
    + apply Forall_app. split.
      * eapply Forall_impl; [|exact F1]. cbv beta. intros t [Ha Hb].
        split; [exact Ha|eapply Qle_trans; eassumption].
      * eapply Forall_impl; [|exact F2]. cbv beta. intros t [Ha Hb].
        split; [eapply Qle_trans; eassumption|exact Hb].
Qed.

Lemma quiet_run_ordered_witness :
  forallb is_quiet [Message 0 (audioMessage silence3_b64); Ended 0;
                    Message 5 (audioMessage silence3_b64)] = true
  /\ (nextStartTimeRef initial
      <= nextStartTimeRef
           (run initial [Message 0 (audioMessage silence3_b64); Ended 0;
                         Message 5 (audioMessage silence3_b64)]))%Q.
Proof.
  split; [reflexivity|].
  apply (quiet_run_ordered
           [Message 0 (audioMessage silence3_b64); Ended 0;
            Message 5 (audioMessage silence3_b64)] initial eq_refl).
Defined.

(* ------------------------------------------------------------------ *)
(** * LiveSession: capture *)

(** X19.  While the session reference is set, each captured frame of [n]
    samples is sent as the base64 text of its [2 * n] PCM bytes; after a
    teardown (close, error or stop) or a failed start nothing is sent any
    more, whatever the frame. *)
Theorem capture_sends (inputData : list float) (s : Session) :
  match onaudioprocess inputData s with
  | Some b64Data =>
      sessionPromiseRef s <> None
      /\ base64ToUint8Array b64Data = Some (float32ToPCM inputData)
      /\ length (float32ToPCM inputData) = (2 * length inputData)%nat
  | None => sessionPromiseRef s = None
  end
  /\ onaudioprocess inputData (onclose s) = None
  /\ onaudioprocess inputData (cleanup s) = None
  /\ (forall e, onaudioprocess inputData (onerror e s) = None)
  /\ (forall err, onaudioprocess inputData (startSession_catch err s) = None)
  /\ (forall session source processor,
         onaudioprocess inputData
           (onopen source processor (startSession_connect session s))
         = Some (float32ToB64PCM inputData)).
Proof.
  assert (Hc : forall s', onaudioprocess inputData (cleanup s') = None).
  { intros s'. unfold onaudioprocess.
    destruct (cleanup_idle s') as (_ & _ & _ & _ & _ & -> & _). reflexivity. }
  split; [|split; [apply Hc|split; [apply Hc|split; [intros e; apply Hc|
           split; [intros err; apply Hc|]]]]].
  - unfold onaudioprocess. destruct (sessionPromiseRef s); [|reflexivity].
    split; [discriminate|]. split; [apply base64_roundtrip|].
    unfold float32ToPCM. rewrite int16_buffer_length, length_map. reflexivity.
  - intros session source processor. destruct s. reflexivity.
Qed.

End LiveMore.

(* ------------------------------------------------------------------ *)
(** * TextToSpeech: playback and download *)

Module SpeechFacts.
Import Speech.

(** Evaluation of the handlers on a state given by its fields. *)
Ltac speech_simpl :=
  cbv [stopAudio onended generate_catch generate_begin
       setIsLoading setIsPlaying setLastGeneratedAudio showNotification
       set_sourceNodeRef set_gainNodeRef set_nextNode set_waiting set_ended
       call held
       isLoading isPlaying lastGeneratedAudio notification sourceNodeRef
       gainNodeRef nextNode waiting ended calls].

Lemma unstopped_app (l cs : list Call) :
  unstopped (l ++ cs) = fold_left track cs (unstopped l).
Proof. unfold unstopped. apply fold_left_app. Qed.

Lemma stopAudio_effect (s : State) :
  held (stopAudio s) = []
  /\ isPlaying (stopAudio s) = false
  /\ calls (stopAudio s) = calls s ++ map SourceStop (held s)
  /\ nextNode (stopAudio s) = nextNode s
  /\ lastGeneratedAudio (stopAudio s) = lastGeneratedAudio s
  /\ isLoading (stopAudio s) = isLoading s
  /\ notification (stopAudio s) = notification s
  /\ waiting (stopAudio s) = waiting s
  /\ ended (stopAudio s) = ended s.
Proof.
  destruct s as [ld pl au nt [src|] gn k w en c]; speech_simpl; cbn [map];
    rewrite ?app_nil_r; repeat split.
Qed.

Lemma playAudio_resumed_decoded (pcm : Uint8Array) (b : AudioBuffer)
      (s : State) :
  pcmToAudioBuffer pcm 24000 1 = Some b ->
  held (playAudio_resumed pcm s) = [nextNode s]
  /\ isPlaying (playAudio_resumed pcm s) = true
  /\ calls (playAudio_resumed pcm s)
     = calls s ++ [GainConnect (S (nextNode s));
                   SourceConnect (nextNode s) (S (nextNode s));
                   SourceStart (nextNode s)]
  /\ nextNode (playAudio_resumed pcm s) = S (S (nextNode s))
  /\ lastGeneratedAudio (playAudio_resumed pcm s) = lastGeneratedAudio s
  /\ isLoading (playAudio_resumed pcm s) = isLoading s
  /\ waiting (playAudio_resumed pcm s) = waiting s
  /\ ended (playAudio_resumed pcm s) = ended s.
Proof.
  intros Hb. unfold playAudio_resumed. rewrite Hb.
  destruct s as [ld pl au nt src gn k w en c]; speech_simpl; cbn [app];
    rewrite <- ?app_assoc; repeat split.
Qed.

Lemma playAudio_resumed_refused (pcm : Uint8Array) (s : State) :
  pcmToAudioBuffer pcm 24000 1 = None -> playAudio_resumed pcm s = s.
Proof. intros Hb. unfold playAudio_resumed. rewrite Hb. reflexivity. Qed.

Lemma playAudio_decoded (pcm : Uint8Array) (b : AudioBuffer) (s : State) :
  pcmToAudioBuffer pcm 24000 1 = Some b ->
  held (playAudio false pcm s) = [nextNode s]
  /\ isPlaying (playAudio false pcm s) = true
  /\ calls (playAudio false pcm s)
     = calls s ++ map SourceStop (held s)
       ++ [GainConnect (S (nextNode s));
           SourceConnect (nextNode s) (S (nextNode s));
           SourceStart (nextNode s)]
  /\ lastGeneratedAudio (playAudio false pcm s) = lastGeneratedAudio s
  /\ isLoading (playAudio false pcm s) = isLoading s.
Proof.
  intros Hb. unfold playAudio.
  destruct (playAudio_resumed_decoded pcm b (stopAudio s) Hb)
    as (-> & -> & -> & _ & -> & -> & _).
  destruct (stopAudio_effect s) as (_ & _ & -> & -> & -> & -> & _).
  rewrite <- app_assoc. repeat split.
Qed.

Lemma playAudio_refused (pcm : Uint8Array) (s : State) :
  pcmToAudioBuffer pcm 24000 1 = None -> playAudio false pcm s = stopAudio s.
Proof. intros Hb. unfold playAudio. apply playAudio_resumed_refused, Hb. Qed.

Lemma decodes (pcm : Uint8Array) :
  (2 <= length pcm)%nat -> exists b, pcmToAudioBuffer pcm 24000 1 = Some b.
Proof.
  intros H. rewrite (pcmToAudioBuffer_mono pcm 24000 ltac:(lia)).
  replace (Z.of_nat (length pcm) <? 2) with false
    by (symmetry; apply Z.ltb_ge; lia).
  eexists; reflexivity.
Qed.

Lemma response_decoded (s : State) (data : string) (pcm : Uint8Array)
      (atobError : JsError) (suspended : bool) :
  data <> ""%string ->
  base64ToUint8Array data = Some pcm ->
  generate_response (Some data) atobError suspended s
  = setIsLoading false
      (playAudio suspended pcm (setLastGeneratedAudio (Some pcm) s)).
Proof.
  intros Hne Hd. unfold generate_response.
  destruct (String.eqb_spec data ""); [contradiction|].
  rewrite Hd. reflexivity.
Qed.

Lemma stopped_unstopped (l : list Call) (s : State) :
  unstopped l = held s ->
  unstopped (l ++ map SourceStop (held s)) = [].
Proof.
  intros H. rewrite unstopped_app, H. unfold held.
  destruct (sourceNodeRef s) as [src|]; [|reflexivity].
  cbn. rewrite Nat.eqb_refl. reflexivity.
Qed.

(** On a context that is not suspended at any response, the sources
    started and not stopped are the source held, and no playback is
    paused. *)
Lemma handle_unstopped (s : State) (ev : Event) :
  running ev = true ->
  unstopped (calls s) = held s /\ waiting s = [] ->
  unstopped (calls (handle s ev)) = held (handle s ev)
  /\ waiting (handle s ev) = [].
Proof.
  intros Hr [H Hw].
  assert (Hstop : unstopped (calls (stopAudio s)) = held (stopAudio s)
                  /\ waiting (stopAudio s) = []).
  { destruct (stopAudio_effect s) as (-> & _ & -> & _ & _ & _ & _ & -> & _).
    split; [apply stopped_unstopped, H | exact Hw]. }
  assert (Hplay : forall pcm,
             unstopped (calls (playAudio false pcm s))
             = held (playAudio false pcm s)
             /\ waiting (playAudio false pcm s) = []).
  { intros pcm. destruct (pcmToAudioBuffer pcm 24000 1) as [b|] eqn:Hb.
    - destruct (playAudio_decoded pcm b s Hb) as (-> & _ & -> & _).
      rewrite app_assoc, unstopped_app, (stopped_unstopped _ s H).
      split; [reflexivity|]. unfold playAudio.
      destruct (playAudio_resumed_decoded pcm b (stopAudio s) Hb)
        as (_ & _ & _ & _ & _ & _ & -> & _).
      apply Hstop.
    - rewrite (playAudio_refused pcm s Hb). exact Hstop. }
  destruct ev as [blank|audioData atobError suspended|error| | | |source];
    cbn [handle].
  - destruct blank; [split; assumption|]. destruct s; split; assumption.
  - cbn [running] in Hr. destruct suspended; [discriminate|].
    unfold generate_response.
    destruct audioData as [data|]; [|destruct s; split; assumption].
    destruct (String.eqb data ""); [destruct s; split; assumption|].
    destruct (base64ToUint8Array data) as [pcm|].
    + specialize (Hplay pcm).
      replace (calls (setIsLoading false
                 (playAudio false pcm (setLastGeneratedAudio (Some pcm) s))))
        with (calls (playAudio false pcm s)).
      2:{ unfold playAudio, playAudio_resumed.
          destruct (pcmToAudioBuffer pcm 24000 1);
          destruct s as [ld pl au nt [src|] gn k w en c]; reflexivity. }
      replace (held (setIsLoading false
                 (playAudio false pcm (setLastGeneratedAudio (Some pcm) s))))
        with (held (playAudio false pcm s)).
      2:{ unfold playAudio, playAudio_resumed.
          destruct (pcmToAudioBuffer pcm 24000 1);
          destruct s as [ld pl au nt [src|] gn k w en c]; reflexivity. }
      replace (waiting (setIsLoading false
                 (playAudio false pcm (setLastGeneratedAudio (Some pcm) s))))
        with (waiting (playAudio false pcm s)).
      2:{ unfold playAudio, playAudio_resumed.
          destruct (pcmToAudioBuffer pcm 24000 1);
          destruct s as [ld pl au nt [src|] gn k w en c]; reflexivity. }
      exact Hplay.
    + unfold generate_catch.
      destruct (classify (errorMessage atobError)); destruct s;
        split; assumption.
  - unfold generate_catch.
    destruct (classify (errorMessage error)); destruct s; split; assumption.
  - unfold resumed. rewrite Hw. split; assumption.
  - unfold rejected. rewrite Hw. split; assumption.
  - exact Hstop.
  - destruct s; split; assumption.
Qed.

Lemma run_unstopped (s : State) (evs : list Event) :
  forallb running evs = true ->
  unstopped (calls s) = held s /\ waiting s = [] ->
  unstopped (calls (run s evs)) = held (run s evs)
  /\ waiting (run s evs) = [].
Proof.
  unfold run. revert s.
  induction evs as [|ev evs IH]; intros s Hr H0; [exact H0|].
  cbn [forallb] in Hr. apply andb_prop in Hr. destruct Hr as [Hr Hrs].
  cbn [fold_left]. apply IH; [exact Hrs|]. apply handle_unstopped; assumption.
Qed.

(** The numbering of the sources along an allowed run. *)
Lemma older_le (k k' : nat) (l : list Call) :
  (k <= k')%nat -> Forall (older k) l -> Forall (older k') l.
Proof.
  intros Hk. apply Forall_impl. intros [g|a g|a|a]; cbn; try trivial. lia.
Qed.

Lemma well_numbered_step (s s' : State) (cs : list Call) :
  well_numbered s ->
  (nextNode s <= nextNode s')%nat ->
  ended s' = ended s ->
  calls s' = calls s ++ cs ->
  Forall (older (nextNode s')) cs ->
  well_numbered s'.
Proof.
  intros [He Hc] Hk E C Hcs. unfold well_numbered. rewrite E, C. split.
  - revert He. apply Forall_impl. intros a Ha. lia.
  - apply Forall_app. split; [eapply older_le; eassumption | exact Hcs].
Qed.

Lemma stopAudio_well_numbered (s : State) :
  well_numbered s -> well_numbered (stopAudio s).
Proof.
  intros H. destruct (stopAudio_effect s) as (_ & _ & C & K & _ & _ & _ & _ & E).
  eapply (well_numbered_step s); [exact H | rewrite K; lia | exact E | exact C|].
  unfold held. destruct (sourceNodeRef s); repeat constructor.
Qed.

Lemma playAudio_resumed_well_numbered (pcm : Uint8Array) (s : State) :
  well_numbered s -> well_numbered (playAudio_resumed pcm s).
Proof.
  intros H. destruct (pcmToAudioBuffer pcm 24000 1) as [b|] eqn:Hb.
  - destruct (playAudio_resumed_decoded pcm b s Hb)
      as (_ & _ & C & K & _ & _ & _ & E).
    eapply (well_numbered_step s);
      [exact H | rewrite K; lia | exact E | exact C|].
    rewrite K. repeat constructor.
  - rewrite (playAudio_resumed_refused pcm s Hb). exact H.
Qed.

Lemma started_older (a : nat) (s : State) :
  well_numbered s -> started a (calls s) = true -> (a < nextNode s)%nat.
Proof.
  intros [_ Hc] Hs. unfold started in Hs. apply existsb_exists in Hs.
  destruct Hs as (c & Hin & Hc').
  rewrite Forall_forall in Hc. specialize (Hc c Hin).
  destruct c as [g|a' g|a'|a']; try discriminate.
  apply Nat.eqb_eq in Hc'. subst a'. exact Hc.
Qed.

Lemma handle_well_numbered (s : State) (ev : Event) :
  enabled s ev = true -> well_numbered s -> well_numbered (handle s ev).
Proof.
  intros Hen H.
  assert (Hset : forall s0 v, well_numbered s0 ->
                              well_numbered (setIsLoading v s0))
    by (intros [] v H0; exact H0).
  assert (Hnote : forall s0 v, well_numbered s0 ->
                               well_numbered (showNotification v s0))
    by (intros [] v H0; exact H0).
  assert (Hlast : forall s0 v, well_numbered s0 ->
                               well_numbered (setLastGeneratedAudio v s0))
    by (intros [] v H0; exact H0).
  assert (Hwait : forall s0 v, well_numbered s0 ->
                               well_numbered (set_waiting v s0))
    by (intros [] v H0; exact H0).
  assert (Hcatch : forall s0 error, well_numbered s0 ->
                                    well_numbered (generate_catch error s0)).
  { intros s0 error H0. unfold generate_catch.
    destruct (classify (errorMessage error)); apply Hset, Hnote, H0. }
  destruct ev as [blank|audioData atobError suspended|error| | | |source];
    cbn [handle].
  - destruct blank; [exact H|]. apply Hlast, Hset, H.
  - unfold generate_response.
    destruct audioData as [data|]; [|apply Hset, Hnote, H].
    destruct (String.eqb data ""); [apply Hset, Hnote, H|].
    destruct (base64ToUint8Array data) as [pcm|]; [|apply Hcatch, H].
    apply Hset. unfold playAudio.
    destruct suspended.
    + apply Hwait, stopAudio_well_numbered, Hlast, H.
    + apply playAudio_resumed_well_numbered, stopAudio_well_numbered, Hlast, H.
  - apply Hcatch, H.
  - unfold resumed. destruct (waiting s) as [|pcm rest]; [exact H|].
    apply playAudio_resumed_well_numbered, Hwait, H.
  - unfold rejected. destruct (waiting s) as [|pcm rest]; [exact H|].
    apply Hwait, H.
  - apply stopAudio_well_numbered, H.
  - cbn [enabled] in Hen. apply andb_prop in Hen. destruct Hen as [Hs _].
    pose proof (started_older source s H Hs) as Hlt.
    destruct H as [He Hc].
    destruct s as [ld pl au nt src gn k w en c]; unfold well_numbered in *;
      cbn in *.
    split; [|exact Hc]. apply Forall_app. split; [exact He|].
    constructor; [exact Hlt | constructor].
Qed.

Lemma run_well_numbered (evs : list Event) (s : State) :
  valid s evs = true -> well_numbered s -> well_numbered (run s evs).
Proof.
  unfold run. revert s.
  induction evs as [|ev evs IH]; intros s Hv H; [exact H|].
  cbn [valid] in Hv. apply andb_prop in Hv. destruct Hv as [Hen Hv].
  cbn [fold_left]. apply IH; [exact Hv|].
  apply handle_well_numbered; assumption.
Qed.

Lemma initial_well_numbered : well_numbered initial.
Proof. split; constructor. Qed.

(** Evaluation of a run on a state given by its fields. *)
Ltac speech_run :=
  cbv [run valid enabled handle fold_left interleaved
       playAudio playAudio_resumed resumed
       stopAudio onended generate_begin
       setIsLoading setIsPlaying setLastGeneratedAudio showNotification
       set_sourceNodeRef set_gainNodeRef set_nextNode set_waiting set_ended
       call held andb orb negb
       isLoading isPlaying lastGeneratedAudio notification sourceNodeRef
       gainNodeRef nextNode waiting ended calls].

Ltac speech_eval := repeat (progress (speech_run; cbn [app map])).

(** Two requests answered on a suspended context: when it resumes, each
    paused playback starts its source, and none stops the other. *)
Lemma interleaved_run (s : State) (data1 data2 : string)
      (pcm1 pcm2 : Uint8Array) (atobError : JsError) :
  isPlaying s = false -> isLoading s = false -> waiting s = [] ->
  data1 <> ""%string -> data2 <> ""%string ->
  base64ToUint8Array data1 = Some pcm1 ->
  base64ToUint8Array data2 = Some pcm2 ->
  (2 <= length pcm1)%nat -> (2 <= length pcm2)%nat ->
  let t := run s (interleaved data1 data2 atobError) in
  valid s (interleaved data1 data2 atobError) = true
  /\ calls t
     = calls s ++ map SourceStop (held s)
       ++ [GainConnect (S (nextNode s));
           SourceConnect (nextNode s) (S (nextNode s));
           SourceStart (nextNode s);
           GainConnect (S (S (S (nextNode s))));
           SourceConnect (S (S (nextNode s))) (S (S (S (nextNode s))));
           SourceStart (S (S (nextNode s)))]
  /\ held t = [S (S (nextNode s))]
  /\ isPlaying t = true
  /\ isLoading t = false
  /\ ended t = ended s
  /\ waiting t = []
  /\ nextNode t = S (S (S (S (nextNode s))))
  /\ lastGeneratedAudio t = Some pcm2.
Proof.
  intros Hp Hl Hw Hn1 Hn2 Hd1 Hd2 H1 H2.
  destruct (decodes pcm1 H1) as [b1 D1]. destruct (decodes pcm2 H2) as [b2 D2].
  cbv zeta. unfold interleaved, run, valid. cbn [fold_left handle].
  rewrite (response_decoded _ data1 pcm1 atobError true Hn1 Hd1).
  rewrite (response_decoded _ data2 pcm2 atobError true Hn2 Hd2).
  destruct s as [ld pl au nt src gn k w en c]. cbn in Hp, Hl, Hw. subst.
  destruct src as [src|]; speech_eval; rewrite D1; speech_eval; rewrite D2;
    speech_eval; rewrite <- ?app_assoc; cbn [app]; rewrite ?app_nil_r;
    repeat split.
Qed.

Lemma run_app (s : State) (l1 l2 : list Event) :
  run s (l1 ++ l2) = run (run s l1) l2.
Proof. unfold run. apply fold_left_app. Qed.

Lemma valid_app (l1 l2 : list Event) (s : State) :
  valid s (l1 ++ l2) = valid s l1 && valid (run s l1) l2.
Proof.
  revert s. induction l1 as [|ev l1 IH]; intros s; [reflexivity|].
  cbn [app valid]. rewrite IH, andb_assoc. reflexivity.
Qed.

Lemma existsb_older (k x : nat) (l : list nat) :
  Forall (fun a => (a < k)%nat) l -> (k <= x)%nat ->
  existsb (Nat.eqb x) l = false.
Proof.
  intros H Hx. induction H as [|a l Ha _ IH]; [reflexivity|].
  cbn [existsb]. rewrite IH, orb_false_r. apply Nat.eqb_neq. lia.
Qed.

(** X20.  Never two sources at once, on a context that is not suspended.
    In a run where the audio context is not suspended whenever a response
    arrives, the sources
    that were started and not stopped since are at most one, and it is
    the source the component holds: a new playback stops the source held
    before it starts its own, and no playback is left paused.  On a
    suspended context this fails: [playAudio] stops the previous source
    and then waits for the context, so the playbacks of two requests
    answered meanwhile each start a source when it resumes, and the first
    is neither stopped nor held. *)
Theorem single_source (evs : list Event) :
  forallb running evs = true ->
  let s := run initial evs in
  unstopped (calls s) = held s
  /\ (length (unstopped (calls s)) <= 1)%nat
  /\ waiting s = []
  /\ forall (data1 data2 : string) (pcm1 pcm2 : Uint8Array)
            (atobError : JsError),
       isPlaying s = false -> isLoading s = false ->
       data1 <> ""%string -> data2 <> ""%string ->
       base64ToUint8Array data1 = Some pcm1 ->
       base64ToUint8Array data2 = Some pcm2 ->
       (2 <= length pcm1)%nat -> (2 <= length pcm2)%nat ->
       let t := run s (interleaved data1 data2 atobError) in
       valid s (interleaved data1 data2 atobError) = true
       /\ unstopped (calls t) = [nextNode s; S (S (nextNode s))]
       /\ held t = [S (S (nextNode s))].
Proof.
  intros Hr. cbv zeta.
  destruct (run_unstopped initial evs Hr (conj eq_refl eq_refl)) as [H Hw].
  split; [exact H|].
  split; [rewrite H; unfold held;
          destruct (sourceNodeRef (run initial evs)); cbn; lia|].
  split; [exact Hw|].
  intros data1 data2 pcm1 pcm2 atobError Hp Hl Hn1 Hn2 Hd1 Hd2 H1 H2.
  destruct (interleaved_run _ data1 data2 pcm1 pcm2 atobError
              Hp Hl Hw Hn1 Hn2 Hd1 Hd2 H1 H2) as (V & C & Hh & _).
  split; [exact V|]. split; [|exact Hh].
  rewrite C, app_assoc, unstopped_app, (stopped_unstopped _ _ H).
  reflexivity.
Qed.

Lemma single_source_witness :
  let err := mkJsError "invalid" "InvalidCharacterError" in
  let evs := [GenerateClicked false; Response (Some "AAAA"%string) err false;
              Ended 0%nat] in
  forallb running evs = true
  /\ unstopped (calls (run initial evs)) = held (run initial evs)
  /\ unstopped (calls (run (run initial evs)
                          (interleaved "AAAA" "AAAAAAAA" err)))
     = [2%nat; 4%nat].
Proof.
  cbv zeta.
  set (err := mkJsError "invalid" "InvalidCharacterError").
  set (evs := [GenerateClicked false; Response (Some "AAAA"%string) err false;
               Ended 0%nat]).
  assert (Hr : forallb running evs = true) by reflexivity.
  split; [exact Hr|].
  destruct (single_source evs Hr) as (G0 & _ & _ & G).
  split; [exact G0|].
  assert (Hp : isPlaying (run initial evs) = false)
    by (vm_compute; reflexivity).
  assert (Hl : isLoading (run initial evs) = false)
    by (vm_compute; reflexivity).
  assert (Hn1 : "AAAA"%string <> ""%string) by discriminate.
  assert (Hn2 : "AAAAAAAA"%string <> ""%string) by discriminate.
  assert (Hd1 : base64ToUint8Array "AAAA" = Some [x00; x00; x00])
    by (vm_compute; reflexivity).
  assert (Hd2 : base64ToUint8Array "AAAAAAAA"
                = Some [x00; x00; x00; x00; x00; x00])
    by (vm_compute; reflexivity).
  assert (H1 : (2 <= length [x00; x00; x00])%nat) by (cbn; lia).
  assert (H2 : (2 <= length [x00; x00; x00; x00; x00; x00])%nat)
    by (cbn; lia).
  exact (proj1 (proj2 (G "AAAA"%string "AAAAAAAA"%string _ _ err
                         Hp Hl Hn1 Hn2 Hd1 Hd2 H1 H2))).
Defined.

Lemma handle_playing_held (s : State) (ev : Event) :
  isPlaying s = false \/ sourceNodeRef s <> None ->
  isPlaying (handle s ev) = false \/ sourceNodeRef (handle s ev) <> None.
Proof.
  intros H.
  assert (Hres : forall pcm s0,
             isPlaying s0 = false \/ sourceNodeRef s0 <> None ->
             isPlaying (playAudio_resumed pcm s0) = false
             \/ sourceNodeRef (playAudio_resumed pcm s0) <> None).
  { intros pcm s0 H0. unfold playAudio_resumed.
    destruct (pcmToAudioBuffer pcm 24000 1); [|exact H0].
    destruct s0 as [ld pl au nt src gn k w en c]; speech_simpl.
    right; discriminate. }
  assert (Hplay : forall susp pcm s0,
             isPlaying (setIsLoading false (playAudio susp pcm s0)) = false
             \/ sourceNodeRef (setIsLoading false (playAudio susp pcm s0))
                <> None).
  { intros susp pcm s0.
    assert (Hs : isPlaying (playAudio susp pcm s0) = false
                 \/ sourceNodeRef (playAudio susp pcm s0) <> None).
    { unfold playAudio. destruct susp.
      - left. destruct s0 as [ld pl au nt [src|] gn k w en c]; reflexivity.
      - apply Hres. left. apply stopAudio_effect. }
    destruct (playAudio susp pcm s0); exact Hs. }
  destruct ev as [blank|audioData atobError suspended|error| | | |source];
    cbn [handle].
  - destruct blank; [exact H|]. destruct s; exact H.
  - unfold generate_response.
    destruct audioData as [data|]; [|destruct s; exact H].
    destruct (String.eqb data ""); [destruct s; exact H|].
    destruct (base64ToUint8Array data) as [pcm|]; [apply Hplay|].
    unfold generate_catch.
    destruct (classify (errorMessage atobError)); destruct s; exact H.
  - unfold generate_catch.
    destruct (classify (errorMessage error)); destruct s; exact H.
  - unfold resumed. destruct (waiting s) as [|pcm rest]; [exact H|].
    apply Hres. destruct s; exact H.
  - unfold rejected. destruct (waiting s) as [|pcm rest]; [exact H|].
    destruct s; exact H.
  - left. apply stopAudio_effect.
  - left. destruct s; reflexivity.
Qed.

(** X21.  The flag and the source.  In every run the component holds a
    source whenever it says it is playing.  The converse fails in a run
    that the interface allows: after two requests answered on a suspended
    context, which then resumes, two sources are started; when the first
    ends by itself, its handler, the same for every source, clears the
    flag while the second, the source held, is started, not stopped and
    not ended, and the Stop button is no longer offered. *)
Theorem playing_flag (evs : list Event) :
  let s := run initial evs in
  (isPlaying s = false \/ sourceNodeRef s <> None)
  /\ forall (data1 data2 : string) (pcm1 pcm2 : Uint8Array)
            (atobError : JsError),
       valid initial evs = true ->
       isPlaying s = false -> isLoading s = false -> waiting s = [] ->
       data1 <> ""%string -> data2 <> ""%string ->
       base64ToUint8Array data1 = Some pcm1 ->
       base64ToUint8Array data2 = Some pcm2 ->
       (2 <= length pcm1)%nat -> (2 <= length pcm2)%nat ->
       let evs' := interleaved data1 data2 atobError ++ [Ended (nextNode s)] in
       let t := run s evs' in
       valid s evs' = true
       /\ isPlaying t = false
       /\ held t = [S (S (nextNode s))]
       /\ In (S (S (nextNode s))) (sounding t)
       /\ ~ In (nextNode s) (sounding t)
       /\ enabled t StopClicked = false.
Proof.
  cbv zeta. split.
  - unfold run.
    assert (H0 : isPlaying initial = false \/ sourceNodeRef initial <> None)
      by (left; reflexivity).
    revert H0. generalize initial.
    induction evs as [|ev evs IH]; intros s H0; [exact H0|].
    cbn [fold_left]. apply IH, handle_playing_held, H0.
  - intros data1 data2 pcm1 pcm2 atobError Hv Hp Hl Hw Hn1 Hn2 Hd1 Hd2 H1 H2.
    pose proof (run_well_numbered evs initial Hv initial_well_numbered)
      as [He _].
    set (s := run initial evs) in *.
    destruct (interleaved_run s data1 data2 pcm1 pcm2 atobError
                Hp Hl Hw Hn1 Hn2 Hd1 Hd2 H1 H2)
      as (V & C & Hh & _ & _ & E & _).
    rewrite valid_app, run_app, V.
    remember (run s (interleaved data1 data2 atobError)) as t6 eqn:Et6.
    clear Et6 V.
    assert (Hn : existsb (Nat.eqb (nextNode s)) (ended s) = false)
      by (apply (existsb_older (nextNode s)); [exact He | lia]).
    assert (Hn' : existsb (Nat.eqb (S (S (nextNode s)))) (ended s) = false)
      by (apply (existsb_older (nextNode s)); [exact He | lia]).
    assert (U : unstopped (calls t6)
                = (fold_left track (map SourceStop (held s))
                     (unstopped (calls s))
                   ++ [nextNode s]) ++ [S (S (nextNode s))]).
    { rewrite C, app_assoc, !unstopped_app. reflexivity. }
    destruct t6 as [ld pl au nt src gn k w en c].
    cbn [calls ended held sourceNodeRef] in C, Hh, E, U. subst en.
    unfold sounding, run.
    cbn [fold_left handle valid enabled andb onended set_ended setIsPlaying
         isPlaying calls ended held sourceNodeRef isLoading
         lastGeneratedAudio notification gainNodeRef nextNode waiting].
    split.
    { rewrite Hn, andb_true_r, andb_true_r. cbn [negb].
      rewrite C. unfold started. rewrite !existsb_app. cbn [existsb].
      rewrite Nat.eqb_refl. cbn [orb]. rewrite !orb_true_r. reflexivity. }
    split; [reflexivity|].
    split; [exact Hh|].
    split.
    { apply filter_In. split.
      - rewrite U. apply in_or_app. right. left. reflexivity.
      - rewrite existsb_app, Hn'. cbn [existsb orb].
        replace (S (S (nextNode s)) =? nextNode s)%nat with false
          by (symmetry; apply Nat.eqb_neq; lia).
        reflexivity. }
    split; [|reflexivity].
    intros Hin. apply filter_In in Hin. destruct Hin as [_ Hin].
    rewrite existsb_app in Hin. cbn [existsb] in Hin.
    rewrite Nat.eqb_refl, orb_true_r in Hin. discriminate.
Qed.

Lemma playing_flag_witness :
  let err := mkJsError "invalid" "InvalidCharacterError" in
  let evs := [GenerateClicked false; Response (Some "AAAA"%string) err false;
              Ended 0%nat] in
  let evs' := interleaved "AAAA" "AAAAAAAA" err ++ [Ended 2%nat] in
  valid initial evs = true
  /\ valid (run initial evs) evs' = true
  /\ isPlaying (run (run initial evs) evs') = false
  /\ In 4%nat (sounding (run (run initial evs) evs')).
Proof.
  cbv zeta.
  set (err := mkJsError "invalid" "InvalidCharacterError").
  set (evs := [GenerateClicked false; Response (Some "AAAA"%string) err false;
               Ended 0%nat]).
  assert (Hv : valid initial evs = true) by (vm_compute; reflexivity).
  split; [exact Hv|].
  destruct (playing_flag evs) as [_ G].
  assert (Hp : isPlaying (run initial evs) = false)
    by (vm_compute; reflexivity).
  assert (Hl : isLoading (run initial evs) = false)
    by (vm_compute; reflexivity).
  assert (Hw : waiting (run initial evs) = []) by (vm_compute; reflexivity).
  assert (Hn1 : "AAAA"%string <> ""%string) by discriminate.
  assert (Hn2 : "AAAAAAAA"%string <> ""%string) by discriminate.
  assert (Hd1 : base64ToUint8Array "AAAA" = Some [x00; x00; x00])
    by (vm_compute; reflexivity).
  assert (Hd2 : base64ToUint8Array "AAAAAAAA"
                = Some [x00; x00; x00; x00; x00; x00])
    by (vm_compute; reflexivity).
  assert (H1 : (2 <= length [x00; x00; x00])%nat) by (cbn; lia).
  assert (H2 : (2 <= length [x00; x00; x00; x00; x00; x00])%nat)
    by (cbn; lia).
  destruct (G "AAAA"%string "AAAAAAAA"%string _ _ err
              Hv Hp Hl Hw Hn1 Hn2 Hd1 Hd2 H1 H2) as (G1 & G2 & _ & G3 & _).
  split; [exact G1|]. split; [exact G2|]. exact G3.
Defined.

(** X22.  Playback of a chunk.  On a context that is not suspended, a chunk
    of fewer than two bytes is refused by the decoder and the failure is
    contained: the previous source is stopped and nothing else happens;
    any other chunk stops the previous source, then connects and starts a
    new one, which becomes the source held, and sets the flag.  On a
    suspended context the previous source is stopped at once and the rest
    waits for the context; when no other playback is paused, the outcome
    after it resumes is the same. *)
Theorem playAudio_outcome (pcm : Uint8Array) (s : State) :
  ((length pcm < 2)%nat -> playAudio false pcm s = stopAudio s)
  /\ ((2 <= length pcm)%nat ->
      held (playAudio false pcm s) = [nextNode s]
      /\ isPlaying (playAudio false pcm s) = true
      /\ calls (playAudio false pcm s)
         = calls s ++ map SourceStop (held s)
           ++ [GainConnect (S (nextNode s));
               SourceConnect (nextNode s) (S (nextNode s));
               SourceStart (nextNode s)])
  /\ held (playAudio true pcm s) = []
  /\ isPlaying (playAudio true pcm s) = false
  /\ calls (playAudio true pcm s) = calls s ++ map SourceStop (held s)
  /\ waiting (playAudio true pcm s) = waiting s ++ [pcm]
  /\ (waiting s = [] -> resumed (playAudio true pcm s) = playAudio false pcm s).
Proof.
  pose proof (pcmToAudioBuffer_mono pcm 24000 ltac:(lia)) as E.
  split; [intros H|split; [intros H|]].
  - apply playAudio_refused. rewrite E.
    replace (Z.of_nat (length pcm) <? 2) with true
      by (symmetry; apply Z.ltb_lt; lia).
    reflexivity.
  - replace (Z.of_nat (length pcm) <? 2) with false in E
      by (symmetry; apply Z.ltb_ge; lia).
    destruct (playAudio_decoded pcm _ s E) as (G1 & G2 & G3 & _).
    repeat split; assumption.
  - destruct s as [ld pl au nt [src|] gn k w en c]; unfold playAudio, resumed;
      speech_simpl; cbn [map]; rewrite ?app_nil_r;
      (repeat match goal with |- _ /\ _ => split end; try reflexivity);
      intros ->; reflexivity.
Qed.

Lemma playAudio_outcome_witness :
  (length [x07] < 2)%nat
  /\ playAudio false [x07] (playAudio false [x01; x02] initial)
     = stopAudio (playAudio false [x01; x02] initial)
  /\ (2 <= length [x01; x02])%nat
  /\ held (playAudio false [x01; x02] initial) = [nextNode initial]
  /\ waiting initial = []
  /\ resumed (playAudio true [x01; x02] initial)
     = playAudio false [x01; x02] initial.
Proof.
  assert (H1 : (length [x07] < 2)%nat) by (cbn; lia).
  assert (H2 : (2 <= length [x01; x02])%nat) by (cbn; lia).
  assert (H3 : waiting initial = []) by reflexivity.
  split; [exact H1|].
  split; [apply (proj1 (playAudio_outcome [x07] _) H1)|].
  split; [exact H2|].
  split; [apply (proj1 (proj2 (playAudio_outcome [x01; x02] initial)) H2)|].
  split; [exact H3|].
  apply (proj2 (proj2 (playAudio_outcome [x01; x02] initial))), H3.
Defined.

(** X23.  The download follows the generation.  After a response whose audio
    is base64 text, the file offered is the WAV container of the decoded
    bytes at 24 kHz mono, [44 + len] bytes that end with those bytes,
    whether or not they could be played and whether or not the audio
    context was suspended; a new request withdraws the file, and it stays
    withdrawn when the request fails or brings no audio. *)
Theorem download_follows_generation (s : State) (data : string)
        (pcm : Uint8Array) (atobError : JsError) (suspended : bool) :
  data <> ""%string ->
  base64ToUint8Array data = Some pcm ->
  let s' := generate_response (Some data) atobError suspended s in
  downloadAudio s' = Some (pcmToWav pcm 24000 1)
  /\ length (pcmToWav pcm 24000 1) = (44 + length pcm)%nat
  /\ skipn 44 (pcmToWav pcm 24000 1) = pcm
  /\ isLoading s' = false
  /\ downloadAudio (generate_begin false s') = None
  /\ (forall error,
         downloadAudio (generate_catch error (generate_begin false s')) = None)
  /\ (forall error suspended',
         downloadAudio (generate_response None error suspended'
                          (generate_begin false s'))
         = None).
Proof.
  intros Hne Hd. cbv zeta.
  rewrite (response_decoded s data pcm atobError suspended Hne Hd).
  assert (L : lastGeneratedAudio
                (setIsLoading false
                   (playAudio suspended pcm
                      (setLastGeneratedAudio (Some pcm) s)))
              = Some pcm).
  { unfold playAudio, playAudio_resumed.
    destruct suspended; destruct (pcmToAudioBuffer pcm 24000 1);
      destruct s as [ld pl au nt [src|] gn k w en c]; reflexivity. }
  split; [unfold downloadAudio; rewrite L; reflexivity|].
  rewrite pcmToWav_layout.
  split; [rewrite length_app; reflexivity|].
  split; [reflexivity|].
  split; [destruct (playAudio suspended pcm _); reflexivity|].
  set (s' := setIsLoading false _).
  split; [destruct s'; reflexivity|].
  split.
  - intros error. unfold generate_catch.
    destruct (classify (errorMessage error)); destruct s'; reflexivity.
  - intros error suspended'. destruct s'; reflexivity.
Qed.

Lemma download_follows_generation_witness :
  "AAAA"%string <> ""%string
  /\ base64ToUint8Array "AAAA" = Some [x00; x00; x00]
  /\ downloadAudio (generate_response (Some "AAAA"%string)
                      (mkJsError "invalid" "InvalidCharacterError") true
                      initial)
     = Some (pcmToWav [x00; x00; x00] 24000 1).
Proof.
  assert (H1 : "AAAA"%string <> ""%string) by discriminate.
  assert (H2 : base64ToUint8Array "AAAA" = Some [x00; x00; x00])
    by (vm_compute; reflexivity).
  split; [exact H1|]. split; [exact H2|].
  apply (download_follows_generation initial "AAAA" [x00; x00; x00]
           (mkJsError "invalid" "InvalidCharacterError") true H1 H2).
Defined.

End SpeechFacts.
